(** * Financial query system: tenant scoping, query execution and response cache

    A shallow embedding of the backend of [financial-query-system]:
    - [langchain/queryChain.js]: [injectUserId], [executeQuery],
      [processNaturalLanguageQuery];
    - [services/cacheService.js]: [generateCacheKey], [getCachedResponse],
      [cacheResponse];
    - [services/queryService.js]: [processQuery];
    - the router: the handler of [POST /query].

    JavaScript strings are modelled by [string] whose characters are the code
    units U+0000..U+00FF; JSON numbers are restricted to integers. *)

From Stdlib Require Import List String Ascii ZArith Lia Bool DecimalString.
Import ListNotations.
Local Open Scope string_scope.

(** ** JavaScript string primitives *)

Module JsString.

Definition code (c : ascii) : N := N_of_ascii c.

(** [String.prototype.toLowerCase] on one code unit below U+0100:
    A-Z, and the Latin-1 capitals U+00C0..U+00DE except the sign U+00D7. *)
Definition lower_char (c : ascii) : ascii :=
  let n := code c in
  if ((65 <=? n) && (n <=? 90))%N then ascii_of_N (n + 32)
  else if ((192 <=? n) && (n <=? 222) && negb (n =? 215))%N then ascii_of_N (n + 32)
  else c.

Fixpoint toLowerCase (s : string) : string :=
  match s with
  | EmptyString => EmptyString
  | String c r => String (lower_char c) (toLowerCase r)
  end.

(** White space and line terminators below U+0100: TAB, LF, VT, FF, CR,
    SPACE and NBSP.  [trim] and the regular expression class [\s] use the
    same set. *)
Definition is_space (c : ascii) : bool :=
  let n := code c in
  (((9 <=? n) && (n <=? 13)) || (n =? 32) || (n =? 160))%N.

Fixpoint trimStart (s : string) : string :=
  match s with
  | EmptyString => EmptyString
  | String c r => if is_space c then trimStart r else s
  end.

Definition is_empty (s : string) : bool :=
  match s with EmptyString => true | String _ _ => false end.

Fixpoint trimEnd (s : string) : string :=
  match s with
  | EmptyString => EmptyString
  | String c r =>
      let r' := trimEnd r in
      if is_space c && is_empty r' then EmptyString else String c r'
  end.

Definition trim (s : string) : string := trimEnd (trimStart s).

(** [s.replace(/\s+/g, ' ')]: [in_run] tells that the previous character
    belonged to a run of white space that has already been replaced. *)
Fixpoint collapse_from (in_run : bool) (s : string) : string :=
  match s with
  | EmptyString => EmptyString
  | String c r =>
      if is_space c
      then (if in_run then collapse_from true r
            else String " " (collapse_from true r))
      else String c (collapse_from false r)
  end.

Definition collapse_spaces (s : string) : string := collapse_from false s.

(** UTF-8 encoding of code units below U+0100, as [hash.update(string)]
    performs it. *)
Definition utf8_char (c : ascii) : list Z :=
  let n := Z.of_N (code c) in
  if (n <? 128)%Z then [n]
  else [Z.lor 192 (Z.shiftr n 6); Z.lor 128 (Z.land n 63)].

Fixpoint utf8 (s : string) : list Z :=
  match s with
  | EmptyString => []
  | String c r => (utf8_char c ++ utf8 r)%list
  end.

End JsString.

(** ** MD5 (RFC 1321), as computed by [crypto.createHash('md5')] *)

Module MD5.
Local Open Scope Z_scope.

Definition mask32 (x : Z) : Z := Z.land x 4294967295.

Definition add32 (x y : Z) : Z := mask32 (x + y).

Definition rotl32 (x : Z) (c : Z) : Z :=
  mask32 (Z.lor (Z.shiftl x c) (Z.shiftr x (32 - c))).

Definition not32 (x : Z) : Z := Z.lxor x 4294967295.

Definition K : list Z :=
  [ 3614090360; 3905402710; 606105819; 3250441966; 4118548399; 1200080426;
    2821735955; 4249261313; 1770035416; 2336552879; 4294925233; 2304563134;
    1804603682; 4254626195; 2792965006; 1236535329; 4129170786; 3225465664;
    643717713; 3921069994; 3593408605; 38016083; 3634488961; 3889429448;
    568446438; 3275163606; 4107603335; 1163531501; 2850285829; 4243563512;
    1735328473; 2368359562; 4294588738; 2272392833; 1839030562; 4259657740;
    2763975236; 1272893353; 4139469664; 3200236656; 681279174; 3936430074;
    3572445317; 76029189; 3654602809; 3873151461; 530742520; 3299628645;
    4096336452; 1126891415; 2878612391; 4237533241; 1700485571; 2399980690;
    4293915773; 2240044497; 1873313359; 4264355552; 2734768916; 1309151649;
    4149444226; 3174756917; 718787259; 3951481745 ].

Definition shifts : list Z :=
  [ 7; 12; 17; 22; 7; 12; 17; 22; 7; 12; 17; 22; 7; 12; 17; 22;
    5; 9; 14; 20; 5; 9; 14; 20; 5; 9; 14; 20; 5; 9; 14; 20;
    4; 11; 16; 23; 4; 11; 16; 23; 4; 11; 16; 23; 4; 11; 16; 23;
    6; 10; 15; 21; 6; 10; 15; 21; 6; 10; 15; 21; 6; 10; 15; 21 ].

Record state := mkState { rA : Z; rB : Z; rC : Z; rD : Z }.

Definition init : state :=
  mkState 1732584193 4023233417 2562383102 271733878.

(** The message: 0x80, zero bytes up to 56 modulo 64, then the bit length
    as a 64-bit little-endian integer. *)
Definition le_bytes (n : nat) (x : Z) : list Z :=
  map (fun i => Z.land (Z.shiftr x (8 * Z.of_nat i)) 255) (seq 0 n).

Definition pad (msg : list Z) : list Z :=
  let len := Z.of_nat (List.length msg) in
  let zeros := Z.to_nat ((55 - len) mod 64) in
  (msg ++ [128] ++ repeat 0 zeros ++ le_bytes 8 (Z.land (8 * len) (2 ^ 64 - 1)))%list.

Fixpoint le_words (fuel : nat) (bs : list Z) : list Z :=
  match fuel, bs with
  | S f, b0 :: b1 :: b2 :: b3 :: rest =>
      (b0 + Z.shiftl b1 8 + Z.shiftl b2 16 + Z.shiftl b3 24) :: le_words f rest
  | _, _ => []
  end.

Definition round (M : list Z) (st : state) (i : nat) : state :=
  let a := rA st in let b := rB st in let c := rC st in let d := rD st in
  let iz := Z.of_nat i in
  let '(f, g) :=
    if iz <? 16 then (Z.lor (Z.land b c) (Z.land (not32 b) d), iz)
    else if iz <? 32 then (Z.lor (Z.land d b) (Z.land (not32 d) c), (5 * iz + 1) mod 16)
    else if iz <? 48 then (Z.lxor b (Z.lxor c d), (3 * iz + 5) mod 16)
    else (Z.lxor c (Z.lor b (not32 d)), (7 * iz) mod 16) in
  let f' := add32 (add32 (add32 f a) (nth i K 0)) (nth (Z.to_nat g) M 0) in
  mkState d (add32 b (rotl32 f' (nth i shifts 0))) b c.

Definition block (st : state) (M : list Z) : state :=
  let st' := fold_left (round M) (seq 0 64) st in
  mkState (add32 (rA st) (rA st')) (add32 (rB st) (rB st'))
          (add32 (rC st) (rC st')) (add32 (rD st) (rD st')).

Fixpoint blocks (fuel : nat) (st : state) (ws : list Z) : state :=
  match fuel with
  | O => st
  | S f =>
      match ws with
      | [] => st
      | _ => blocks f (block st (firstn 16 ws)) (skipn 16 ws)
      end
  end.

Definition digest (msg : list Z) : list Z :=
  let bs := pad msg in
  let ws := le_words (List.length bs) bs in
  let st := blocks (List.length ws) init ws in
  (le_bytes 4 (rA st) ++ le_bytes 4 (rB st) ++ le_bytes 4 (rC st) ++ le_bytes 4 (rD st))%list.

Definition hex_digit (n : Z) : ascii :=
  nth (Z.to_nat n)
      (list_ascii_of_string "0123456789abcdef") "0"%char.

Fixpoint hex (bs : list Z) : string :=
  match bs with
  | [] => EmptyString
  | b :: r => String (hex_digit (Z.shiftr b 4)) (String (hex_digit (Z.land b 15)) (hex r))
  end.

(** [createHash('md5').update(s).digest('hex')] *)
Definition md5_hex (s : string) : string := hex (digest (JsString.utf8 s)).

End MD5.

(** ** JSON values and the JavaScript operations applied to them *)

#[warnings="-register-all"]
Inductive JsVal : Type :=
| JUndefined
| JNull
| JBool (b : bool)
| JNum (n : Z)
| JStr (s : string)
| JArr (items : list JsVal)
| JObj (fields : list (string * JsVal)).

(** An object: its own properties, looked up by the first binding of a key. *)
Definition JsObject : Type := list (string * JsVal).

(** ToBoolean. *)
Definition truthy (v : JsVal) : bool :=
  match v with
  | JUndefined | JNull => false
  | JBool b => b
  | JNum n => negb (n =? 0)%Z
  | JStr s => negb (JsString.is_empty s)
  | JArr _ | JObj _ => true
  end.

Fixpoint lookup (k : string) (o : JsObject) : JsVal :=
  match o with
  | [] => JUndefined
  | (k', v) :: r => if k' =? k then v else lookup k r
  end.

(** [{ ...o, k: v }]: the value of an existing key is replaced in place, a
    new key is added last. *)
Fixpoint obj_set (k : string) (v : JsVal) (o : JsObject) : JsObject :=
  match o with
  | [] => [(k, v)]
  | (k', v') :: r => if k' =? k then (k, v) :: r else (k', v') :: obj_set k v r
  end.

Inductive JsError : Type :=
| TypeError
| InvalidCollection (c : string)
| UnsupportedOperation (op : string)
| StoreError
| TranslationError
| SynthesisError
| RedisError
| SyntaxError.

Inductive result (A : Type) : Type :=
| Ok (a : A)
| Throw (e : JsError).
Arguments Ok {A} a.
Arguments Throw {A} e.

Definition rbind {A B : Type} (r : result A) (k : A -> result B) : result B :=
  match r with
  | Ok a => k a
  | Throw e => Throw e
  end.

Notation "x <-! r ;; k" := (rbind r (fun x => k))
  (at level 61, r at next level, right associativity).

(** The array index a property key denotes, if it is a canonical one. *)
Definition index_of_key (k : string) : option nat :=
  match NilEmpty.uint_of_string k with
  | Some u =>
      let n := Nat.of_uint u in
      if NilEmpty.string_of_uint (Nat.to_uint n) =? k then Some n else None
  | None => None
  end.

(** [v.k] and [v[k]] on own properties: reading a property of [undefined]
    or [null] throws a TypeError, a missing property is [undefined]. *)
Definition get_prop (v : JsVal) (k : string) : result JsVal :=
  match v with
  | JUndefined | JNull => Throw TypeError
  | JBool _ | JNum _ => Ok JUndefined
  | JObj o => Ok (lookup k o)
  | JArr l =>
      if k =? "length" then Ok (JNum (Z.of_nat (List.length l)))
      else match index_of_key k with
           | Some i => Ok (nth i l JUndefined)
           | None => Ok JUndefined
           end
  | JStr s =>
      if k =? "length" then Ok (JNum (Z.of_nat (String.length s)))
      else match index_of_key k with
           | Some i => Ok (match String.get i s with
                           | Some c => JStr (String c EmptyString)
                           | None => JUndefined
                           end)
           | None => Ok JUndefined
           end
  end.

(** ** Structured queries (the JSON object the translation step returns)

    [collection] and [operation] are names, [query] and [projection] are
    objects, [pipeline] is an array of stages; a field that is missing or
    [null] is [None].  What the functions do on parsed values of any other
    shape is followed in [Parsed] below. *)
Record QueryDef : Type := mkQueryDef {
  collection : string;
  operation : string;
  query : option JsObject;
  projection : option JsObject;
  pipeline : option (list JsVal)
}.

Definition set_query (q : QueryDef) (v : JsObject) : QueryDef :=
  mkQueryDef (collection q) (operation q) (Some v) (projection q) (pipeline q).

Definition set_pipeline (q : QueryDef) (v : list JsVal) : QueryDef :=
  mkQueryDef (collection q) (operation q) (query q) (projection q) (Some v).

(** [{ ...query }] for a query that may be missing. *)
Definition spread (o : option JsObject) : JsObject :=
  match o with
  | Some f => f
  | None => []
  end.

(** ** queryChain.js: injectUserId *)

(** [{ $match: { user_id: userId } }] *)
Definition userMatchStage (userId : string) : JsVal :=
  JObj [("$match", JObj [("user_id", JStr userId)])].

(** [pipeline.length > 0 && pipeline[0].$match && pipeline[0].$match.user_id]:
    the value of the conjunction is its first falsy operand, or the last. *)
Definition hasUserMatch (pipeline : list JsVal) : result JsVal :=
  if (0 <? List.length pipeline)%nat then
    m <-! get_prop (nth 0 pipeline JUndefined) "$match" ;;
    if truthy m then get_prop m "user_id" else Ok m
  else Ok (JBool false).

(** [!query || !query.user_id] *)
Definition lacksUserId (q : option JsObject) : bool :=
  match q with
  | None => true
  | Some f => negb (truthy (lookup "user_id" f))
  end.

Definition injectUserId (queryDef : QueryDef) (userId : string) : result QueryDef :=
  if collection queryDef =? "users" then Ok queryDef
  else
    match operation queryDef =? "aggregate", pipeline queryDef with
    | true, Some p =>
        h <-! hasUserMatch p ;;
        if negb (truthy h)
        then Ok (set_pipeline queryDef (userMatchStage userId :: p))
        else Ok queryDef
    | _, _ =>
        if (operation queryDef =? "find") || (operation queryDef =? "findOne") then
          if lacksUserId (query queryDef)
          then Ok (set_query queryDef
                     (obj_set "user_id" (JStr userId) (spread (query queryDef))))
          else Ok queryDef
        else Ok queryDef
    end.

(** ** The document store *)

Definition Doc : Type := JsObject.

(** [db.collection(name)]: the documents of a collection. *)
Definition Db : Type := string -> list Doc.

(** What [executeQuery] resolves to: the array of [find] and [aggregate],
    or the document (or [null]) of [findOne]. *)
Inductive QueryResult : Type :=
| Rows (docs : list Doc)
| Row (doc : option Doc).


Definition allowedCollections : list string :=
  ["users"; "bank_transactions"; "mutual_fund_holdings"; "equity_holdings"].

Definition includes (l : list string) (x : string) : bool :=
  existsb (fun y => y =? x) l.

(** The collections whose documents carry a [user_id]. *)
Definition tenant_owned (c : string) : bool :=
  includes ["bank_transactions"; "mutual_fund_holdings"; "equity_holdings"] c.

(** The document belongs to the user: its [user_id] is that string. *)
Definition owned_by (userId : string) (d : Doc) : bool :=
  match lookup "user_id" d with
  | JStr s => s =? userId
  | _ => false
  end.


(** ** cacheService.js: generateCacheKey *)

(** [question.toLowerCase().trim().replace(/\s+/g, ' ')] *)
Definition normalized (question : string) : string :=
  JsString.collapse_spaces (JsString.trim (JsString.toLowerCase question)).

Definition generateCacheKey (question : string) : string :=
  "query:" ++ MD5.md5_hex (normalized question).

(** queryService.js: the string [processQuery] hands to the cache service,
    [`${userId}:${question}`], and the Redis key derived from it. *)
Definition cacheKey (userId question : string) : string :=
  userId ++ ":" ++ question.

Definition redisKey (userId question : string) : string :=
  generateCacheKey (cacheKey userId question).

(** ** The Redis client and the state the request handlers run in *)

Record RedisClient : Type := mkRedisClient {
  isOpen : bool;
  isReady : bool;
  (** whether a command sent to the server is answered; when it is not,
      the promise of the command rejects *)
  responding : bool;
  (** key, time to live in seconds, value *)
  entries : list (string * (Z * string))
}.

Definition isRedisConnected (c : RedisClient) : bool := isOpen c && isReady c.

(** The calls that leave the process. *)
Inductive Call : Type :=
| RedisGet (key : string)
| RedisSetEx (key : string) (ttl : Z) (value : string)
| LlmTranslate (userId question : string)
| StoreQuery (q : QueryDef)
| LlmSynthesize (userName question : string) (data : QueryResult).

Record World : Type := mkWorld {
  cache_enabled : bool;      (* config.cache.enabled *)
  cache_ttl : Z;             (* config.cache.ttl *)
  redis : RedisClient;
  db : Db;
  calls : list Call          (* external calls made so far, latest first *)
}.

(** Computations that read and change the world and may throw. *)
Definition M (A : Type) : Type := World -> result A * World.

Definition ret {A : Type} (a : A) : M A := fun w => (Ok a, w).

Definition bind {A B : Type} (m : M A) (k : A -> M B) : M B :=
  fun w =>
    match m w with
    | (Ok a, w') => k a w'
    | (Throw e, w') => (Throw e, w')
    end.

Definition try_catch {A : Type} (m : M A) (handler : JsError -> M A) : M A :=
  fun w =>
    match m w with
    | (Ok a, w') => (Ok a, w')
    | (Throw e, w') => handler e w'
    end.

Definition lift {A : Type} (r : result A) : M A := fun w => (r, w).

Notation "x <- m ;; k" := (bind m (fun x => k))
  (at level 61, m at next level, right associativity).

Definition set_calls (w : World) (cs : list Call) : World :=
  mkWorld (cache_enabled w) (cache_ttl w) (redis w) (db w) cs.

Definition record_call (c : Call) : M unit :=
  fun w => (Ok tt, set_calls w (c :: calls w)).

Fixpoint assoc {V : Type} (k : string) (l : list (string * V)) : option V :=
  match l with
  | [] => None
  | (k', v) :: r => if k' =? k then Some v else assoc k r
  end.

Fixpoint assoc_set {V : Type} (k : string) (v : V) (l : list (string * V))
  : list (string * V) :=
  match l with
  | [] => [(k, v)]
  | (k', v') :: r => if k' =? k then (k, v) :: r else (k', v') :: assoc_set k v r
  end.

(** [redisClient.get(key)] *)
Definition redis_get (key : string) : M (option string) :=
  _ <- record_call (RedisGet key) ;;
  fun w =>
    if responding (redis w)
    then (Ok (option_map snd (assoc key (entries (redis w)))), w)
    else (Throw RedisError, w).

(** [redisClient.setEx(key, ttl, value)] *)
Definition redis_setEx (key : string) (ttl : Z) (value : string) : M unit :=
  _ <- record_call (RedisSetEx key ttl value) ;;
  fun w =>
    let c := redis w in
    if responding c
    then (Ok tt, mkWorld (cache_enabled w) (cache_ttl w)
                   (mkRedisClient (isOpen c) (isReady c) (responding c)
                      (assoc_set key (ttl, value) (entries c)))
                   (db w) (calls w))
    else (Throw RedisError, w).

(** ** The response object *)

Definition opt_field (k : string) (v : option JsVal) : JsObject :=
  match v with
  | Some x => [(k, x)]
  | None => []
  end.

(** The query definition as the object of the response: its five
    members, those that are present.  The object the model returned may
    hold them in another order, hold [null] for a missing one and hold
    further members; [describes] says what every such object has. *)
Definition queryDef_json (q : QueryDef) : JsVal :=
  JObj ([("collection", JStr (collection q)); ("operation", JStr (operation q))]
        ++ opt_field "query" (option_map JObj (query q))
        ++ opt_field "projection" (option_map JObj (projection q))
        ++ opt_field "pipeline" (option_map JArr (pipeline q)))%list.

(** A member of an object holds an optional field: a field that is
    missing is [undefined] or [null] there. *)
Definition member (v : JsVal) (field : option JsVal) : Prop :=
  match field with
  | Some x => v = x
  | None => v = JUndefined \/ v = JNull
  end.

(** The value is an object with the five members of the query definition,
    in whatever order and among whatever other members. *)
Definition describes (v : JsVal) (q : QueryDef) : Prop :=
  exists o,
    v = JObj o
    /\ lookup "collection" o = JStr (collection q)
    /\ lookup "operation" o = JStr (operation q)
    /\ member (lookup "query" o) (option_map JObj (query q))
    /\ member (lookup "projection" o) (option_map JObj (projection q))
    /\ member (lookup "pipeline" o) (option_map JArr (pipeline q)).

Definition queryResult_json (r : QueryResult) : JsVal :=
  match r with
  | Rows l => JArr (map JObj l)
  | Row (Some d) => JObj d
  | Row None => JNull
  end.

Definition index_key (i : nat) : string :=
  NilEmpty.string_of_uint (Nat.to_uint i).

Fixpoint indexed {A : Type} (f : A -> JsVal) (i : nat) (l : list A) : JsObject :=
  match l with
  | [] => []
  | x :: r => (index_key i, f x) :: indexed f (S i) r
  end.

(** The own enumerable properties [{ ...v }] copies. *)
Definition spread_props (v : JsVal) : JsObject :=
  match v with
  | JObj o => o
  | JArr l => indexed (fun x => x) 0 l
  | JStr s => indexed (fun c => JStr (String c EmptyString)) 0 (list_ascii_of_string s)
  | _ => []
  end.

(** The body of [POST /query] after JSON parsing. *)
Record RequestBody : Type := mkRequestBody {
  body_question : JsVal;
  body_userId : option string;
  body_userName : option string
}.

Inductive HttpResponse : Type :=
| Reply (status : nat) (body : JsVal).

Definition status_of (r : HttpResponse) : nat :=
  match r with Reply s _ => s end.

Definition bad_request (message : string) : HttpResponse :=
  Reply 400 (JObj [("error", JStr "Bad Request"); ("message", JStr message)]).

(** [!s] for a string that may be missing. *)
Definition missing (s : option string) : bool :=
  match s with
  | None => true
  | Some x => JsString.is_empty x
  end.


Definition supportedOperations : list string := ["find"; "findOne"; "aggregate"].

(** What [generateCacheKey] makes of the user id in front of the colon and
    of the question behind it. *)
Definition normalize_id (userId : string) : string :=
  JsString.collapse_spaces (JsString.trimStart (JsString.toLowerCase userId)).

Definition normalize_question (question : string) : string :=
  JsString.collapse_spaces (JsString.trimEnd (JsString.toLowerCase question)).

(** ** queryChain.js: injectUserId on any value of [JSON.parse]

    [injectUserId] is handed whatever [JSON.parse] made of the answer of
    the model.  [QueryDef] holds the values of the shape the prompt asks
    for: an object whose [query] is an object and whose [pipeline] is an
    array, where they are present.  Here the function is followed on every
    value. *)

Module Parsed.

Section Coercion.

(** [x > 0] for a string, an array or an object [x]: the language turns
    [x] into a number first, and for an object that can fail, with a
    TypeError. *)
Variable coerced_gt_zero : JsVal -> option bool.

(** [x > 0] *)
Definition gt_zero (x : JsVal) : result bool :=
  match x with
  | JUndefined | JNull => Ok false
  | JBool b => Ok b
  | JNum n => Ok (0 <? n)%Z
  | JStr _ | JArr _ | JObj _ =>
      match coerced_gt_zero x with
      | Some b => Ok b
      | None => Throw TypeError
      end
  end.

(** [v === s] for a text [s]. *)
Definition is_text (v : JsVal) (s : string) : bool :=
  match v with
  | JStr x => x =? s
  | _ => false
  end.

(** [[...v]]: the values [v] yields.  Of what [JSON.parse] returns, the
    arrays and the strings are iterable. *)
Definition iterate (v : JsVal) : result (list JsVal) :=
  match v with
  | JArr items => Ok items
  | JStr s =>
      Ok (map (fun c => JStr (String c EmptyString)) (list_ascii_of_string s))
  | _ => Throw TypeError
  end.

(** [pipeline.length > 0 && pipeline[0].$match && pipeline[0].$match.user_id] *)
Definition hasUserMatch (pipeline : JsVal) : result JsVal :=
  len <-! get_prop pipeline "length" ;;
  nonempty <-! gt_zero len ;;
  if nonempty then
    first <-! get_prop pipeline "0" ;;
    m <-! get_prop first "$match" ;;
    if truthy m then get_prop m "user_id" else Ok m
  else Ok (JBool false).

(** [queryDef.k = v].  The assignments come after [operation] was found
    to be a text, which only an object can hold. *)
Definition assign (queryDef : JsVal) (k : string) (v : JsVal) : JsVal :=
  match queryDef with
  | JObj o => JObj (obj_set k v o)
  | _ => queryDef
  end.

Definition injectUserId (queryDef : JsVal) (userId : string) : result JsVal :=
  collection <-! get_prop queryDef "collection" ;;
  operation <-! get_prop queryDef "operation" ;;
  query <-! get_prop queryDef "query" ;;
  pipeline <-! get_prop queryDef "pipeline" ;;
  if is_text collection "users" then Ok queryDef
  else if is_text operation "aggregate" && truthy pipeline then
    h <-! hasUserMatch pipeline ;;
    if negb (truthy h) then
      items <-! iterate pipeline ;;
      Ok (assign queryDef "pipeline" (JArr (userMatchStage userId :: items)))
    else Ok queryDef
  else if is_text operation "find" || is_text operation "findOne" then
    lacks <-! (if negb (truthy query) then Ok true
               else user_id <-! get_prop query "user_id" ;;
                    Ok (negb (truthy user_id))) ;;
    if lacks then
      Ok (assign queryDef "query"
            (JObj (obj_set "user_id" (JStr userId) (spread_props query))))
    else Ok queryDef
  else Ok queryDef.

(** The pipelines of an [aggregate] that get no user filter and cannot be
    returned either: an array that begins with [null], of which no
    [$match] can be read; a number or [true], which cannot be spread; an
    object, which cannot be spread either, unless it passes for a pipeline
    with a user filter, having a [length] above 0 and a member [0] whose
    [$match.user_id] is truthy. *)
Definition unusable (pipeline : JsVal) : Prop :=
  match pipeline with
  | JUndefined | JNull | JStr _ => False
  | JBool b => b = true
  | JNum n => n <> 0%Z
  | JArr items => exists rest, items = JNull :: rest \/ items = JUndefined :: rest
  | JObj o =>
      ~ (gt_zero (lookup "length" o) = Ok true
         /\ exists m v,
              get_prop (lookup "0" o) "$match" = Ok m
              /\ truthy m = true
              /\ get_prop m "user_id" = Ok v
              /\ truthy v = true)
  end.

End Coercion.

End Parsed.

(** ** queryChain.js: the answer of the language model *)

(** What [llm.invoke] resolves to: a message with a [content] text, or a
    bare text. *)
Inductive LlmResponse : Type :=
| Message (content : string)
| Plain (text : string).

Definition line_feed : ascii := ascii_of_nat 10.

(** [s.replace(/<fence>\n?/g, '')] for a fence without special characters:
    every occurrence of the fence, found from left to right, goes, with a
    line feed that follows it; [skip] characters of the occurrence at hand
    are still to be dropped. *)
Fixpoint remove_fences (fence : string) (skip : nat) (s : string) : string :=
  match s with
  | EmptyString => EmptyString
  | String c r =>
      match skip with
      | S k => remove_fences fence k r
      | O =>
          if String.prefix fence s then
            let n := String.length fence in
            remove_fences fence
              (match String.get n s with
               | Some c' => if (c' =? line_feed)%char then n else n - 1
               | None => n - 1
               end) r
          else String c (remove_fences fence 0 r)
      end
  end.

(** The text holds no backtick. *)
Fixpoint no_backtick (s : string) : bool :=
  match s with
  | EmptyString => true
  | String c r => negb (c =? "`")%char && no_backtick r
  end.

(** [content.replace(/```json\n?/g, '').replace(/```\n?/g, '').trim()] *)
Definition strip_code_blocks (content : string) : string :=
  JsString.trim
    (remove_fences "```" 0 (remove_fences "```json" 0 content)).

(** ** config/redis.js: reconnectStrategy *)

(** The strategy answers with an error, which ends the reconnecting, or
    with the milliseconds to wait. *)
Inductive ReconnectDecision : Type :=
| GiveUp
| RetryAfter (ms : Z).

Definition reconnectStrategy (retries : Z) : ReconnectDecision :=
  if (10 <? retries)%Z then GiveUp
  else RetryAfter (Z.min (retries * 100) 3000).

(** ** test/testSuite.js *)

Module TestSuite.

Record TestQuery : Type := mkTestQuery {
  category : string;
  question : string;
  expectedContains : list string
}.

(** [results.passed] and [results.failed]. *)
Record Results : Type := mkResults {
  passed : nat;
  failed : nat
}.

(** The body [JSON.stringify({ question })] of a test request. *)
Definition request (q : string) : RequestBody :=
  mkRequestBody (JStr q) None None.

(** [response.ok && data.answer] *)
Definition accepted (reply : HttpResponse) : bool :=
  match reply with
  | Reply status body =>
      ((200 <=? status)%nat && (status <=? 299)%nat)
      && match get_prop body "answer" with
         | Ok answer => truthy answer
         | Throw _ => false
         end
  end.

Definition count (ok : bool) (r : Results) : Results :=
  if ok then mkResults (S (passed r)) (failed r)
  else mkResults (passed r) (S (failed r)).

Definition cacheTestQuery : string := "How much did I spend on food?".

End TestSuite.

(** ** A store with two users, after seed.js *)

Module Fixture.

Definition user1Id : string := "user-1".
Definition user2Id : string := "user-2".

Definition transaction (id userId : string) (amount : Z)
  (category merchant : string) : Doc :=
  [("_id", JStr id); ("user_id", JStr userId); ("amount", JNum amount);
   ("category", JStr category); ("merchant", JStr merchant)].

Definition swiggy : Doc := transaction "t1" user1Id 2500 "food" "Swiggy".
Definition makemytrip : Doc := transaction "t2" user1Id 15000 "travel" "MakeMyTrip".
Definition zomato : Doc := transaction "t3" user2Id 1200 "food" "Zomato".
Definition flipkart : Doc := transaction "t4" user2Id 8000 "shopping" "Flipkart".

Definition users : list Doc :=
  [ [("_id", JStr user1Id); ("name", JStr "Rahul Sharma")];
    [("_id", JStr user2Id); ("name", JStr "Priya Patel")] ].

Definition store : Db :=
  fun c =>
    if c =? "users" then users
    else if c =? "bank_transactions" then [swiggy; makemytrip; zomato; flipkart]
    else [].

(** Collaborators for running the model: a driver without operators,
    projections or further stages, a language model with fixed answers. *)
Definition no_operator : string -> JsVal -> Doc -> bool := fun _ _ _ => false.
Definition keep_fields : JsObject -> Doc -> Doc := fun _ d => d.
Definition no_stage : Db -> JsVal -> list Doc -> option (list Doc) :=
  fun _ _ _ => None.

Definition food_query (userId : string) : QueryDef :=
  mkQueryDef "bank_transactions" "find"
    (Some [("user_id", JStr userId); ("category", JStr "food")]) None None.

Definition translate_food : string -> string -> result QueryDef :=
  fun userId _ => Ok (food_query userId).

Definition answer_food : string -> string -> QueryResult -> result string :=
  fun _ _ _ => Ok "You spent 2500 on food.".

Definition parse_nothing : string -> result JsVal := fun _ => Throw SyntaxError.
Definition stringify_nothing : JsVal -> string := fun _ => "{}".

(** Caching switched off, the client never connected. *)
Definition world_without_cache : World :=
  mkWorld false 3600 (mkRedisClient false false false []) store [].

(** Caching switched on and the client connected, the server not
    answering. *)
Definition world_unreachable : World :=
  mkWorld true 3600 (mkRedisClient true true false []) store [].

(** Redis connected and answering, nothing cached yet. *)
Definition world_with_cache : World :=
  mkWorld true 3600 (mkRedisClient true true true []) store [].

(** A serialisation that knows one text. *)
Definition saved_response : JsVal :=
  JObj [("answer", JStr "You spent 2500 on food.")].

Definition stringify_saved : JsVal -> string := fun _ => "saved".

Definition parse_saved : string -> result JsVal :=
  fun text => if text =? "saved" then Ok saved_response else Throw SyntaxError.

(** The response to the food question of user 1, and a serialisation
    that knows it. *)
Definition food_response : JsVal :=
  JObj [("question", JStr "How much did I spend on food?");
        ("user", JObj [("id", JStr user1Id); ("name", JStr "Rahul Sharma")]);
        ("answer", JStr "You spent 2500 on food.");
        ("queryExecuted", queryDef_json (food_query user1Id));
        ("dataRetrieved", JArr [JObj swiggy])].

Definition parse_food : string -> result JsVal :=
  fun text => if text =? "saved" then Ok food_response else Throw SyntaxError.

(** The cache holding the answer to the food question of user 1. *)
Definition world_with_entry : World :=
  mkWorld true 3600
    (mkRedisClient true true true
       [(redisKey user1Id "How much did I spend on food?", (3600%Z, "saved"))])
    store [].

(** [KEYS] patterns that end in a star match the keys with that prefix. *)
Definition prefix_glob : string -> string -> bool :=
  fun pattern key =>
    String.prefix (substring 0 (String.length pattern - 1) pattern) key.

Definition no_message : JsError -> string := fun _ => "error".

(** No text, array or object counts as a number above 0. *)
Definition no_coercion : JsVal -> option bool := fun _ => Some false.

(** Answers that parse, and are no query definition. *)
Definition object_pipeline : JsVal :=
  JObj [("collection", JStr "bank_transactions"); ("operation", JStr "aggregate");
        ("pipeline", JObj [])].

Definition number_pipeline : JsVal :=
  JObj [("collection", JStr "bank_transactions"); ("operation", JStr "aggregate");
        ("pipeline", JNum 5)].

(** The food query of [unfiltered_find] as the model may write it: the
    members in another order, a member of its own, [null] for the
    pipeline. *)
Definition reordered_find : JsVal :=
  JObj [("operation", JStr "find"); ("note", JStr "food spending");
        ("collection", JStr "bank_transactions");
        ("query", JObj [("category", JStr "food")]); ("pipeline", JNull)].

Definition text_filter : JsVal :=
  JObj [("collection", JStr "bank_transactions"); ("operation", JStr "find");
        ("query", JStr "ab")].

(** Queries a translation may return for user 1. *)
Definition foreign_find : QueryDef := food_query user2Id.

Definition unfiltered_find : QueryDef :=
  mkQueryDef "bank_transactions" "find" (Some [("category", JStr "food")]) None None.

Definition foreign_aggregate : QueryDef :=
  mkQueryDef "bank_transactions" "aggregate" None None
    (Some [JObj [("$match", JObj [("user_id", JStr user2Id)])]]).

Definition bare_aggregate : QueryDef :=
  mkQueryDef "bank_transactions" "aggregate" None None None.

Definition empty_aggregate : QueryDef :=
  mkQueryDef "bank_transactions" "aggregate" None None (Some []).

(** A pipeline that starts with a [$match] on the category. *)
Definition food_stage : JsVal := JObj [("$match", JObj [("category", JStr "food")])].

Definition food_aggregate : QueryDef :=
  mkQueryDef "bank_transactions" "aggregate" None None (Some [food_stage]).

(** A pipeline whose only stage adds the documents of a collection. *)
Definition union_aggregate : QueryDef :=
  mkQueryDef "bank_transactions" "aggregate" None None
    (Some [JObj [("$unionWith", JStr "bank_transactions")]]).

Definition null_aggregate : QueryDef :=
  mkQueryDef "bank_transactions" "aggregate" None None (Some [JNull]).

(** A driver that knows [{ $unionWith: <collection> }]: the documents it
    received, then those of the collection. *)
Definition union_with : Db -> JsVal -> list Doc -> option (list Doc) :=
  fun db stage docs =>
    match stage with
    | JObj [(k, JStr c)] =>
        if k =? "$unionWith" then Some (docs ++ db c)%list else None
    | _ => None
    end.

Definition list_users : QueryDef :=
  mkQueryDef "users" "find" (Some []) None None.

Definition drop_stocks : QueryDef :=
  mkQueryDef "stocks" "drop" None None None.

End Fixture.

(** ** The backend, over its external collaborators *)

Section Backend.

(** The MongoDB driver.  The model interprets what the injected user filter
    relies on: the conjunction of the top-level conditions of a filter,
    equality of a plain field with a scalar, and [$match] stages.  Query
    operators, dotted paths, projections and the other pipeline stages are
    the driver's own and stay parameters.  A stage maps the documents it
    receives to those it passes on, or is rejected; it runs on the server
    and can read every collection of the database ([$lookup],
    [$unionWith]).  Stages that write ([$out], [$merge]) are not covered.
    The fields of the four collections hold scalars, so that equality with
    a scalar is equality with the value of the field. *)
Variable eval_operator : string -> JsVal -> Doc -> bool.
Variable apply_projection : JsObject -> Doc -> Doc.
Variable run_stage : Db -> JsVal -> list Doc -> option (list Doc).

(** The language model behind [llm.invoke]: the query prompt, with
    [parseQueryResponse] applied to the answer, and the response prompt. *)
Variable translate : string -> string -> result QueryDef.
Variable synthesize : string -> string -> QueryResult -> result string.

(** [JSON.parse] and [JSON.stringify]. *)
Variable JSON_parse : string -> result JsVal.
Variable JSON_stringify : JsVal -> string.

Definition is_scalar (v : JsVal) : bool :=
  match v with
  | JNull | JBool _ | JNum _ | JStr _ => true
  | JUndefined | JArr _ | JObj _ => false
  end.

Definition scalar_eqb (a b : JsVal) : bool :=
  match a, b with
  | JNull, JNull => true
  | JBool x, JBool y => Bool.eqb x y
  | JNum x, JNum y => (x =? y)%Z
  | JStr x, JStr y => (x =? y)%string
  | _, _ => false
  end.

Fixpoint has_dot (s : string) : bool :=
  match s with
  | EmptyString => false
  | String c r => (c =? ".")%char || has_dot r
  end.

(** A key naming a top-level field: no leading [$], no path separator. *)
Definition is_plain_key (k : string) : bool :=
  match k with
  | String c _ => negb (c =? "$")%char && negb (has_dot k)
  | EmptyString => true
  end.

(** One [key: value] condition of a filter.  A [null] value also selects
    the documents without the field. *)
Definition field_condition (k : string) (v : JsVal) (d : Doc) : bool :=
  if is_plain_key k && is_scalar v then
    match v with
    | JNull => match lookup k d with
               | JNull | JUndefined => true
               | _ => false
               end
    | _ => scalar_eqb (lookup k d) v
    end
  else eval_operator k v d.

Definition matches (filter : JsObject) (d : Doc) : bool :=
  forallb (fun kv => field_condition (fst kv) (snd kv) d) filter.

Definition project (projection : option JsObject) (d : Doc) : Doc :=
  match projection with
  | Some p => apply_projection p d
  | None => d
  end.

(** [col.find(filter, { projection }).toArray()] *)
Definition col_find (col : list Doc) (filter : JsObject)
  (projection : option JsObject) : list Doc :=
  map (project projection) (List.filter (matches filter) col).

(** [col.findOne(filter, { projection })] *)
Definition col_findOne (col : list Doc) (filter : JsObject)
  (projection : option JsObject) : option Doc :=
  option_map (project projection) (head (List.filter (matches filter) col)).

Definition match_stage (stage : JsVal) : option JsObject :=
  match stage with
  | JObj [(k, JObj f)] => if k =? "$match" then Some f else None
  | _ => None
  end.

(** [col.aggregate(pipeline).toArray()], for a collection [col] of the
    database [db]. *)
Fixpoint col_aggregate (db : Db) (col : list Doc) (pipeline : list JsVal)
  : result (list Doc) :=
  match pipeline with
  | [] => Ok col
  | stage :: rest =>
      docs <-! match match_stage stage with
               | Some f => Ok (List.filter (matches f) col)
               | None => match run_stage db stage col with
                         | Some out => Ok out
                         | None => Throw StoreError
                         end
               end ;;
      col_aggregate db docs rest
  end.


(** *** queryChain.js: executeQuery *)

Definition executeQuery (db : Db) (queryDef : QueryDef) : result QueryResult :=
  if negb (includes allowedCollections (collection queryDef))
  then Throw (InvalidCollection (collection queryDef))
  else
    let col := db (collection queryDef) in
    let op := operation queryDef in
    if op =? "find" then
      Ok (Rows (col_find col (spread (query queryDef)) (projection queryDef)))
    else if op =? "findOne" then
      Ok (Row (col_findOne col (spread (query queryDef)) (projection queryDef)))
    else if op =? "aggregate" then
      docs <-! col_aggregate db col (match pipeline queryDef with
                                  | Some p => p
                                  | None => []
                                  end) ;;
      Ok (Rows docs)
    else Throw (UnsupportedOperation op).

(** *** queryChain.js: processNaturalLanguageQuery *)

Definition llm_translate (userId question : string) : M QueryDef :=
  _ <- record_call (LlmTranslate userId question) ;;
  lift (translate userId question).

(** [executeQuery] in the world: the driver is called unless the query is
    rejected before. *)
Definition store_execute (queryDef : QueryDef) : M QueryResult :=
  fun w =>
    match executeQuery (db w) queryDef with
    | Throw (InvalidCollection c) => (Throw (InvalidCollection c), w)
    | Throw (UnsupportedOperation op) => (Throw (UnsupportedOperation op), w)
    | r => (r, set_calls w (StoreQuery queryDef :: calls w))
    end.

Definition llm_synthesize (userName question : string) (data : QueryResult)
  : M string :=
  _ <- record_call (LlmSynthesize userName question data) ;;
  lift (synthesize userName question data).

Definition processNaturalLanguageQuery (question userId userName : string)
  : M JsVal :=
  mongoQuery <- llm_translate userId question ;;
  mongoQuery <- lift (injectUserId mongoQuery userId) ;;
  queryResult <- store_execute mongoQuery ;;
  answer <- llm_synthesize userName question queryResult ;;
  ret (JObj [("question", JStr question);
             ("user", JObj [("id", JStr userId); ("name", JStr userName)]);
             ("answer", JStr answer);
             ("queryExecuted", queryDef_json mongoQuery);
             ("dataRetrieved", queryResult_json queryResult)]).

(** *** cacheService.js: getCachedResponse, cacheResponse *)

Definition cache_skipped (w : World) : bool :=
  negb (cache_enabled w) || negb (isRedisConnected (redis w)).

(** What one call of the cache service sends to Redis when the cache
    cannot be used: nothing when the call is skipped, the command when it
    is sent and not answered. *)
Definition attempted (w : World) (command : Call) : list Call :=
  if cache_skipped w then [] else [command].

Definition getCachedResponse (question : string) : M JsVal :=
  fun w =>
    if cache_skipped w then (Ok JNull, w)
    else
      try_catch
        (cached <- redis_get (generateCacheKey question) ;;
         match cached with
         | Some text =>
             if truthy (JStr text) then lift (JSON_parse text) else ret JNull
         | None => ret JNull
         end)
        (fun _ => ret JNull) w.

Definition cacheResponse (question : string) (response : JsVal) : M unit :=
  fun w =>
    if cache_skipped w then (Ok tt, w)
    else
      try_catch
        (redis_setEx (generateCacheKey question) (cache_ttl w)
           (JSON_stringify response))
        (fun _ => ret tt) w.

(** *** queryService.js: processQuery *)

Definition with_fromCache (b : bool) (response : JsVal) : JsVal :=
  JObj (obj_set "fromCache" (JBool b) (spread_props response)).

Definition processQuery (question userId userName : string) : M JsVal :=
  let cacheKey := cacheKey userId question in
  cached <- getCachedResponse cacheKey ;;
  if truthy cached then ret (with_fromCache true cached)
  else
    result <- processNaturalLanguageQuery question userId userName ;;
    _ <- cacheResponse cacheKey result ;;
    ret (with_fromCache false result).

(** *** The router: POST /query

    The [processingTime] and [message] members of the replies are left out:
    they hold the elapsed wall-clock time and the text of the error. *)
Definition post_query (body : RequestBody) : M HttpResponse :=
  let question := body_question body in
  if negb (truthy question) then ret (bad_request "Question is required")
  else if missing (body_userId body) || missing (body_userName body) then
    ret (bad_request "userId and userName are required. Please select a user.")
  else
    match question with
    | JStr q =>
        if (String.length (JsString.trim q) =? 0)%nat then
          ret (bad_request "Question cannot be empty")
        else if (500 <? String.length q)%nat then
          ret (bad_request "Question is too long (max 500 characters)")
        else
          try_catch
            (result <- processQuery (JsString.trim q)
                         (match body_userId body with Some u => u | None => "" end)
                         (match body_userName body with Some n => n | None => "" end) ;;
             ret (Reply 200 result))
            (fun _ =>
               ret (Reply 500 (JObj [("error", JStr "Query Processing Failed")])))
    | _ => ret (bad_request "Question must be a string")
    end.

(** *** queryChain.js: parseQueryResponse *)

(** [response.content || response]: a message whose content is empty is
    itself taken for the text, and has no [replace]. *)
Definition response_text (response : LlmResponse) : result string :=
  match response with
  | Message content =>
      if JsString.is_empty content then Throw TypeError else Ok content
  | Plain text => Ok text
  end.

Definition parseQueryResponse (response : LlmResponse) : result JsVal :=
  content <-! response_text response ;;
  match JSON_parse (strip_code_blocks content) with
  | Ok v => Ok v
  | Throw _ => Throw TranslationError
  end.

(** *** cacheService.js: invalidateCache, getCacheStats

    Both work on the Redis client alone.  [KEYS] matches keys against a
    glob pattern; the matching is the server's. *)
Variable key_matches : string -> string -> bool.
Variable error_message : JsError -> string.

(** [redisClient.keys(pattern)] *)
Definition redis_keys (pattern : string) (c : RedisClient) : result (list string) :=
  if responding c
  then Ok (List.filter (key_matches pattern) (map fst (entries c)))
  else Throw RedisError.

(** [redisClient.del(keys)] *)
Definition redis_del (keys : list string) (c : RedisClient) : result RedisClient :=
  if responding c
  then Ok (mkRedisClient (isOpen c) (isReady c) (responding c)
             (List.filter (fun e => negb (includes keys (fst e))) (entries c)))
  else Throw RedisError.

(** [redisClient.info(section)]; the text it returns is not used. *)
Definition redis_info (section : string) (c : RedisClient) : result unit :=
  if responding c then Ok tt else Throw RedisError.

(** The number of keys deleted and the client afterwards; a missing
    pattern is ['query:*']. *)
Definition invalidateCache (pattern : option string) (c : RedisClient)
  : Z * RedisClient :=
  let pattern := match pattern with Some p => p | None => "query:*" end in
  if negb (isRedisConnected c) then (0%Z, c)
  else
    match redis_keys pattern c with
    | Ok keys =>
        match (if (0 <? List.length keys)%nat then redis_del keys c else Ok c) with
        | Ok c' => (Z.of_nat (List.length keys), c')
        | Throw _ => (0%Z, c)
        end
    | Throw _ => (0%Z, c)
    end.

Definition getCacheStats (w : World) : JsVal :=
  let c := redis w in
  if negb (isRedisConnected c) then JObj [("connected", JBool false)]
  else
    match redis_keys "query:*" c with
    | Ok keys =>
        match redis_info "memory" c with
        | Ok _ =>
            JObj [("connected", JBool true);
                  ("cachedQueries", JNum (Z.of_nat (List.length keys)));
                  ("ttl", JNum (cache_ttl w))]
        | Throw e =>
            JObj [("connected", JBool true); ("error", JStr (error_message e))]
        end
    | Throw e =>
        JObj [("connected", JBool true); ("error", JStr (error_message e))]
    end.

(** The world with another state of the Redis client. *)
Definition set_redis (w : World) (c : RedisClient) : World :=
  mkWorld (cache_enabled w) (cache_ttl w) c (db w) (calls w).

(** *** testSuite.js: runTests

    [fetch] reaches the handler of [POST /query]; a request that fails
    counts as a failed test.  The counters are modelled, the texts that
    are printed are not. *)
Definition fetch_query (q : string) : M bool :=
  try_catch
    (reply <- post_query (TestSuite.request q) ;;
     ret (TestSuite.accepted reply))
    (fun _ => ret false).

Fixpoint run_each (tests : list TestSuite.TestQuery) (results : TestSuite.Results)
  : M TestSuite.Results :=
  match tests with
  | [] => ret results
  | test :: rest =>
      ok <- fetch_query (TestSuite.question test) ;;
      run_each rest (TestSuite.count ok results)
  end.

Definition runTests (testQueries : list TestSuite.TestQuery)
  : M TestSuite.Results :=
  results <- run_each testQueries (TestSuite.mkResults 0 0) ;;
  _ <- fetch_query TestSuite.cacheTestQuery ;;
  _ <- fetch_query TestSuite.cacheTestQuery ;;
  ret results.

(** * Properties *)

(** ** Objects and the user filter *)

Lemma lookup_obj_set_same (k : string) (v : JsVal) (o : JsObject) :
  lookup k (obj_set k v o) = v.
Proof.
  induction o as [|[k' v'] r IH]; simpl.
  - now rewrite String.eqb_refl.
  - destruct (k' =? k) eqn:E; simpl.
    + now rewrite String.eqb_refl.
    + now rewrite E.
Qed.

Lemma lookup_obj_set_other (k k' : string) (v : JsVal) (o : JsObject) :
  k' <> k -> lookup k' (obj_set k v o) = lookup k' o.
Proof.
  intros Hne. apply String.eqb_neq in Hne.
  induction o as [|[k0 v0] r IH]; simpl.
  - now rewrite String.eqb_sym, Hne.
  - destruct (k0 =? k) eqn:E; simpl.
    + apply String.eqb_eq in E. subst k0.
      now rewrite String.eqb_sym, Hne.
    + destruct (k0 =? k'); [reflexivity | exact IH].
Qed.

Lemma tenant_owned_not_users (c : string) :
  tenant_owned c = true -> (c =? "users") = false.
Proof.
  intros H. destruct (c =? "users") eqn:E; [|reflexivity].
  apply String.eqb_eq in E. subst c. discriminate H.
Qed.

Lemma tenant_owned_allowed (c : string) :
  tenant_owned c = true -> includes allowedCollections c = true.
Proof.
  unfold tenant_owned, includes, allowedCollections. simpl.
  intros H. rewrite H. apply orb_true_r.
Qed.


Lemma field_condition_user_id (userId : string) (d : Doc) :
  field_condition "user_id" (JStr userId) d = owned_by userId d.
Proof.
  unfold field_condition, owned_by. simpl.
  destruct (lookup "user_id" d); reflexivity.
Qed.



Lemma col_aggregate_error (db : Db) (col : list Doc) (p : list JsVal)
  (e : JsError) :
  col_aggregate db col p = Throw e -> e = StoreError.
Proof.
  revert col. induction p as [|st rest IH]; simpl; intros col H.
  - discriminate H.
  - destruct (match_stage st) as [f|].
    + simpl in H. exact (IH _ H).
    + destruct (run_stage db st col) as [out|]; simpl in H.
      * exact (IH _ H).
      * congruence.
Qed.

Lemma get_prop_throws (v : JsVal) (k : string) (e : JsError) :
  get_prop v k = Throw e -> e = TypeError /\ (v = JNull \/ v = JUndefined).
Proof.
  destruct v; cbn [get_prop]; intros H; try discriminate H.
  - injection H as <-. now split; [|right].
  - injection H as <-. now split; [|left].
  - destruct (k =? "length"); [discriminate H|].
    destruct (index_of_key k); discriminate H.
  - destruct (k =? "length"); [discriminate H|].
    destruct (index_of_key k); discriminate H.
Qed.

Lemma get_prop_of_truthy (v : JsVal) (k : string) (e : JsError) :
  truthy v = true -> get_prop v k <> Throw e.
Proof.
  intros Ht H. apply get_prop_throws in H.
  destruct H as [_ [-> | ->]]; discriminate Ht.
Qed.

(** ** injectUserId *)

(** C8.  On the [users] collection [injectUserId] returns the query it was
    given, whatever the user and whatever else the query holds. *)
Theorem injectUserId_users_unchanged (q : QueryDef) (userId : string) :
  collection q = "users" -> injectUserId q userId = Ok q.
Proof.
  intros H. unfold injectUserId. rewrite H. reflexivity.
Qed.

(** C2, as the code has it.  On a collection that carries [user_id], a
    [find] or [findOne] whose filter is missing or has no truthy [user_id]
    gets the filter with [user_id] set to the user of the request, every
    other field kept; a filter that already has a truthy [user_id] is
    returned as it is. *)
Theorem injectUserId_find_filter (q : QueryDef) (userId : string) :
  tenant_owned (collection q) = true ->
  operation q = "find" \/ operation q = "findOne" ->
  (lacksUserId (query q) = true ->
   exists filter,
     injectUserId q userId = Ok (set_query q filter)
     /\ lookup "user_id" filter = JStr userId
     /\ forall k, k <> "user_id" ->
          lookup k filter = lookup k (spread (query q)))
  /\ (lacksUserId (query q) = false -> injectUserId q userId = Ok q).
Proof.
  intros Hc Hop. unfold injectUserId.
  rewrite (tenant_owned_not_users _ Hc).
  assert (Hagg : (operation q =? "aggregate") = false)
    by (destruct Hop as [-> | ->]; reflexivity).
  assert (Hfind : (operation q =? "find") || (operation q =? "findOne") = true)
    by (destruct Hop as [-> | ->]; reflexivity).
  rewrite Hagg, Hfind. split; intros HL; rewrite HL.
  - exists (obj_set "user_id" (JStr userId) (spread (query q))).
    split; [reflexivity|]. split.
    + apply lookup_obj_set_same.
    + intros k Hk. now apply lookup_obj_set_other.
  - reflexivity.
Qed.

(** C3, as the code has it.  On a collection that carries [user_id], an
    [aggregate] whose pipeline is present gets the stage
    [{ $match: { user_id: userId } }] in front, the stages it came with
    behind it, when the pipeline is empty or its first stage has no truthy
    [$match.user_id]; a pipeline whose first stage has one is returned as
    it is, with that value, whatever it is.  A first stage that is [null]
    has no [$match] to read: the call throws a TypeError. *)
Theorem injectUserId_aggregate_pipeline (q : QueryDef) (userId : string)
  (p : list JsVal) :
  tenant_owned (collection q) = true ->
  operation q = "aggregate" ->
  pipeline q = Some p ->
  match p with
  | [] => injectUserId q userId = Ok (set_pipeline q [userMatchStage userId])
  | JNull :: _ | JUndefined :: _ => injectUserId q userId = Throw TypeError
  | stage :: _ =>
      exists m,
        get_prop stage "$match" = Ok m
        /\ (truthy m = false ->
            injectUserId q userId
            = Ok (set_pipeline q (userMatchStage userId :: p)))
        /\ (truthy m = true ->
            exists v,
              get_prop m "user_id" = Ok v
              /\ injectUserId q userId
                 = Ok (if truthy v then q
                       else set_pipeline q (userMatchStage userId :: p)))
  end.
Proof.
  intros Hc Hop Hp. unfold injectUserId.
  rewrite (tenant_owned_not_users _ Hc), Hop, Hp.
  cbn [String.eqb Ascii.eqb Bool.eqb].
  destruct p as [|stage rest]; [reflexivity|].
  unfold hasUserMatch. cbn [List.length Nat.ltb Nat.leb nth].
  assert (Hread : forall m,
            get_prop stage "$match" = Ok m ->
            (truthy m = false ->
             (h <-! (m0 <-! get_prop stage "$match" ;;
                     if truthy m0 then get_prop m0 "user_id" else Ok m0) ;;
              if negb (truthy h)
              then Ok (set_pipeline q (userMatchStage userId :: stage :: rest))
              else Ok q)
             = Ok (set_pipeline q (userMatchStage userId :: stage :: rest)))
            /\ (truthy m = true ->
                exists v,
                  get_prop m "user_id" = Ok v
                  /\ (h <-! (m0 <-! get_prop stage "$match" ;;
                             if truthy m0 then get_prop m0 "user_id" else Ok m0) ;;
                      if negb (truthy h)
                      then Ok (set_pipeline q
                                 (userMatchStage userId :: stage :: rest))
                      else Ok q)
                     = Ok (if truthy v then q
                           else set_pipeline q
                                  (userMatchStage userId :: stage :: rest)))).
  { intros m Hm. rewrite Hm. cbn [rbind]. split; intros Ht; rewrite Ht.
    - cbn [rbind]. now rewrite Ht.
    - destruct (get_prop m "user_id") as [v|e] eqn:Hv;
        [|exfalso; exact (get_prop_of_truthy _ _ _ Ht Hv)].
      exists v. split; [reflexivity|]. cbn [rbind].
      now destruct (truthy v). }
  destruct stage as [| | b | n | s | l | o]; try reflexivity;
    (eexists; split; [reflexivity|]; apply Hread; reflexivity).
Qed.

(** C10.  An [aggregate] on a collection that carries [user_id] whose
    [pipeline] is missing passes [injectUserId] unchanged, and
    [executeQuery] then aggregates with the empty pipeline: it returns
    every document of the collection. *)
Theorem aggregate_without_pipeline (db : Db) (q : QueryDef) (userId : string) :
  tenant_owned (collection q) = true ->
  operation q = "aggregate" ->
  pipeline q = None ->
  injectUserId q userId = Ok q
  /\ executeQuery db q = Ok (Rows (db (collection q))).
Proof.
  intros Hc Hop Hp. split.
  - unfold injectUserId.
    rewrite (tenant_owned_not_users _ Hc), Hop, Hp. reflexivity.
  - unfold executeQuery.
    rewrite (tenant_owned_allowed _ Hc), Hop, Hp. reflexivity.
Qed.

(** ** executeQuery *)




Lemma executeQuery_injected_find (db : Db) (q : QueryDef) (f : JsObject) :
  includes allowedCollections (collection q) = true ->
  operation q = "find" ->
  executeQuery db (set_query q f)
  = Ok (Rows (col_find (db (collection q)) f (projection q))).
Proof.
  intros Ha Hop. unfold executeQuery, set_query; cbn [collection operation query projection].
  rewrite Ha, Hop. reflexivity.
Qed.






Lemma supported_operation (op : string) :
  includes supportedOperations op
  = (op =? "find") || (op =? "findOne") || (op =? "aggregate").
Proof.
  unfold includes, supportedOperations. cbn [existsb].
  rewrite (String.eqb_sym "find"), (String.eqb_sym "findOne"),
    (String.eqb_sym "aggregate").
  now rewrite orb_false_r, orb_assoc.
Qed.

(** C7, as the code has it.  [executeQuery] throws "Invalid collection"
    exactly when the collection is not one of the four allowed ones, and
    "Unsupported operation" exactly when the collection is allowed and the
    operation is none of [find], [findOne] and [aggregate]: the collection
    is checked first, for every query. *)
Theorem executeQuery_rejections (db : Db) (q : QueryDef) :
  ((exists c, executeQuery db q = Throw (InvalidCollection c))
   <-> includes allowedCollections (collection q) = false)
  /\ ((exists op, executeQuery db q = Throw (UnsupportedOperation op))
      <-> (includes allowedCollections (collection q) = true
           /\ includes supportedOperations (operation q) = false)).
Proof.
  rewrite supported_operation. unfold executeQuery.
  destruct (includes allowedCollections (collection q)); cbn [negb].
  - split.
    + split; [|discriminate]. intros [c Hc].
      destruct (operation q =? "find"); [discriminate Hc|].
      destruct (operation q =? "findOne"); [discriminate Hc|].
      destruct (operation q =? "aggregate"); [|discriminate Hc].
      destruct (col_aggregate _ _ _) as [docs|e] eqn:Hagg; cbn [rbind] in Hc;
        [discriminate Hc|].
      apply col_aggregate_error in Hagg. congruence.
    + destruct (operation q =? "find"); cbn [orb].
      { split; [intros [op Hop]; discriminate Hop | intros [_ H]; discriminate H]. }
      destruct (operation q =? "findOne"); cbn [orb].
      { split; [intros [op Hop]; discriminate Hop | intros [_ H]; discriminate H]. }
      destruct (operation q =? "aggregate").
      * split; [|intros [_ H]; discriminate H]. intros [op Hop].
        destruct (col_aggregate _ _ _) as [docs|e] eqn:Hagg; cbn [rbind] in Hop;
          [discriminate Hop|].
        apply col_aggregate_error in Hagg. congruence.
      * split; [now split|]. intros _. now eexists.
  - split.
    + split; [reflexivity|]. intros _. now eexists.
    + split; [intros [op Hop]; discriminate Hop | intros [H _]; discriminate H].
Qed.

(** ** The response cache *)

Lemma pipeline_result_depends_on_store (question userId userName : string)
  (w w' : World) :
  db w = db w' ->
  fst (processNaturalLanguageQuery question userId userName w)
  = fst (processNaturalLanguageQuery question userId userName w').
Proof.
  intros Hdb.
  unfold processNaturalLanguageQuery, llm_translate, store_execute,
    llm_synthesize, bind, record_call, lift, ret.
  cbn [set_calls db]. rewrite Hdb.
  destruct (translate userId question) as [mq|e]; [|reflexivity].
  destruct (injectUserId mq userId) as [mq'|e]; [|reflexivity].
  destruct (executeQuery (db w') mq') as [r|e]; [|destruct e; reflexivity].
  destruct (synthesize userName question r) as [a|e]; reflexivity.
Qed.

Lemma pipeline_keeps_world (question userId userName : string) (w : World) :
  exists cs,
    snd (processNaturalLanguageQuery question userId userName w) = set_calls w cs.
Proof.
  unfold processNaturalLanguageQuery, llm_translate, store_execute,
    llm_synthesize, bind, record_call, lift, ret.
  cbn [set_calls db].
  destruct (translate userId question) as [mq|e]; [|now eexists].
  destruct (injectUserId mq userId) as [mq'|e]; [|now eexists].
  destruct (executeQuery (db w) mq') as [r|e]; [|destruct e; now eexists].
  destruct (synthesize userName question r) as [a|e]; now eexists.
Qed.

Lemma getCachedResponse_unreachable (key : string) (w : World) :
  cache_enabled w = false \/ isRedisConnected (redis w) = false
  \/ responding (redis w) = false ->
  exists cs, getCachedResponse key w = (Ok JNull, set_calls w cs).
Proof.
  intros H. unfold getCachedResponse, cache_skipped.
  destruct w as [en ttl c store cs]. cbn [cache_enabled redis] in *.
  destruct en; cbn [negb orb].
  - destruct (isRedisConnected c); cbn [negb].
    + destruct H as [H | [H | H]]; try discriminate H.
      unfold try_catch, redis_get, bind, record_call, ret.
      cbn [set_calls redis]. rewrite H. now eexists.
    + now exists cs.
  - now exists cs.
Qed.

Lemma cacheResponse_unreachable (key : string) (response : JsVal) (w : World) :
  cache_enabled w = false \/ isRedisConnected (redis w) = false
  \/ responding (redis w) = false ->
  exists cs, cacheResponse key response w = (Ok tt, set_calls w cs).
Proof.
  intros H. unfold cacheResponse, cache_skipped.
  destruct w as [en ttl c store cs]. cbn [cache_enabled redis] in *.
  destruct en; cbn [negb orb].
  - destruct (isRedisConnected c); cbn [negb].
    + destruct H as [H | [H | H]]; try discriminate H.
      unfold try_catch, redis_setEx, bind, record_call, ret.
      cbn [set_calls redis]. rewrite H. now eexists.
    + now exists cs.
  - now exists cs.
Qed.

Lemma getCachedResponse_never_throws (key : string) (w : World) :
  exists v w', getCachedResponse key w = (Ok v, w') /\ db w' = db w.
Proof.
  unfold getCachedResponse.
  destruct (cache_skipped w); [now eexists; eexists|].
  unfold try_catch, redis_get, bind, record_call, lift, ret.
  cbn [set_calls redis].
  destruct (responding (redis w)); [|now eexists; eexists].
  destruct (option_map snd (assoc (generateCacheKey key) (entries (redis w))))
    as [text|]; [|now eexists; eexists].
  destruct (truthy (JStr text)); [|now eexists; eexists].
  destruct (JSON_parse text); now eexists; eexists.
Qed.

Lemma cacheResponse_never_throws (key : string) (response : JsVal) (w : World) :
  exists w', cacheResponse key response w = (Ok tt, w').
Proof.
  unfold cacheResponse.
  destruct (cache_skipped w); [now eexists|].
  unfold try_catch, redis_setEx, bind, record_call, ret.
  cbn [set_calls redis].
  destruct (responding (redis w)); now eexists.
Qed.

(** Whatever the state of the cache, an error of [processQuery] is an
    error of the query chain. *)
Lemma processQuery_error_is_chain_error (question userId userName : string)
  (w : World) (e : JsError) :
  fst (processQuery question userId userName w) = Throw e ->
  fst (processNaturalLanguageQuery question userId userName w) = Throw e.
Proof.
  unfold processQuery, bind.
  destruct (getCachedResponse_never_throws (cacheKey userId question) w)
    as [v [w1 [-> Hdb]]].
  destruct (truthy v); [discriminate|].
  rewrite (pipeline_result_depends_on_store question userId userName w w1)
    by (symmetry; exact Hdb).
  destruct (processNaturalLanguageQuery question userId userName w1)
    as [[result|e'] w2]; cbn [fst]; [|trivial].
  destruct (cacheResponse_never_throws (cacheKey userId question) result w2)
    as [w3 ->].
  discriminate.
Qed.

Lemma queryDef_json_describes (q : QueryDef) : describes (queryDef_json q) q.
Proof.
  unfold describes, queryDef_json. eexists. split; [reflexivity|].
  destruct q as [c op [f|] [pr|] [pl|]]; cbn; repeat split; auto.
Qed.

Lemma getCachedResponse_attempt (key : string) (w : World) :
  cache_enabled w = false \/ isRedisConnected (redis w) = false
  \/ responding (redis w) = false ->
  getCachedResponse key w
  = (Ok JNull,
     set_calls w (attempted w (RedisGet (generateCacheKey key)) ++ calls w)%list).
Proof.
  intros H. unfold getCachedResponse, attempted.
  destruct (cache_skipped w) eqn:Hs; [now destruct w|].
  unfold cache_skipped in Hs. apply orb_false_iff in Hs.
  destruct Hs as [Hen Hcon].
  apply negb_false_iff in Hen. apply negb_false_iff in Hcon.
  destruct H as [H | [H | H]]; try congruence.
  unfold try_catch, redis_get, bind, record_call, ret.
  cbn [set_calls redis]. now rewrite H.
Qed.

Lemma cacheResponse_attempt (key : string) (response : JsVal) (w : World) :
  cache_enabled w = false \/ isRedisConnected (redis w) = false
  \/ responding (redis w) = false ->
  cacheResponse key response w
  = (Ok tt,
     set_calls w
       (attempted w (RedisSetEx (generateCacheKey key) (cache_ttl w)
                       (JSON_stringify response)) ++ calls w)%list).
Proof.
  intros H. unfold cacheResponse, attempted.
  destruct (cache_skipped w) eqn:Hs; [now destruct w|].
  unfold cache_skipped in Hs. apply orb_false_iff in Hs.
  destruct Hs as [Hen Hcon].
  apply negb_false_iff in Hen. apply negb_false_iff in Hcon.
  destruct H as [H | [H | H]]; try congruence.
  unfold try_catch, redis_setEx, bind, record_call, ret.
  cbn [set_calls redis]. now rewrite H.
Qed.

(** C6.  When caching is switched off, the Redis client is not connected,
    or the server does not answer, [getCachedResponse] resolves to [null]
    and [cacheResponse] resolves without an error, both leaving the world
    as it is but for the command they may have sent.  [processQuery] then
    is the query chain: when translation, [injectUserId], [executeQuery]
    and synthesis succeed it returns the response object with the
    question, the user, the answer of the synthesis, the query that was
    executed, the data that was retrieved and [fromCache: false], after
    one call of each step, and the Redis client is as before; when it
    throws, the error is the one of the step of the chain that failed,
    never one of the cache. *)
Theorem cache_fails_open (w : World) (question userId userName : string) :
  cache_enabled w = false \/ isRedisConnected (redis w) = false
  \/ responding (redis w) = false ->
  (forall key,
     getCachedResponse key w
     = (Ok JNull,
        set_calls w
          (attempted w (RedisGet (generateCacheKey key)) ++ calls w)%list))
  /\ (forall key response,
        cacheResponse key response w
        = (Ok tt,
           set_calls w
             (attempted w (RedisSetEx (generateCacheKey key) (cache_ttl w)
                             (JSON_stringify response)) ++ calls w)%list))
  /\ (forall q q' data answer,
        translate userId question = Ok q ->
        injectUserId q userId = Ok q' ->
        executeQuery (db w) q' = Ok data ->
        synthesize userName question data = Ok answer ->
        exists executed,
          describes executed q'
          /\ let response :=
               [("question", JStr question);
                ("user", JObj [("id", JStr userId); ("name", JStr userName)]);
                ("answer", JStr answer);
                ("queryExecuted", executed);
                ("dataRetrieved", queryResult_json data)] in
             let outcome := processQuery question userId userName w in
             fst outcome
             = Ok (JObj (response ++ [("fromCache", JBool false)])%list)
             /\ redis (snd outcome) = redis w
             /\ calls (snd outcome)
                = (attempted w (RedisSetEx (redisKey userId question)
                                  (cache_ttl w) (JSON_stringify (JObj response)))
                   ++ [LlmSynthesize userName question data;
                       StoreQuery q';
                       LlmTranslate userId question]
                   ++ attempted w (RedisGet (redisKey userId question))
                   ++ calls w)%list)
  /\ (forall e,
        fst (processQuery question userId userName w) = Throw e ->
        translate userId question = Throw e
        \/ exists q,
             translate userId question = Ok q
             /\ (injectUserId q userId = Throw e
                 \/ exists q',
                      injectUserId q userId = Ok q'
                      /\ (executeQuery (db w) q' = Throw e
                          \/ exists data,
                               executeQuery (db w) q' = Ok data
                               /\ synthesize userName question data = Throw e))).
Proof.
  intros H.
  split; [intros key; exact (getCachedResponse_attempt key w H)|].
  split; [intros key response; exact (cacheResponse_attempt key response w H)|].
  pose proof (getCachedResponse_attempt (cacheKey userId question) w H) as Hget.
  split.
  - intros q q' data answer Ht Hi He Hs.
    exists (queryDef_json q'). split; [apply queryDef_json_describes|].
    cbv zeta. unfold processQuery, bind. rewrite Hget. cbn [truthy].
    unfold processNaturalLanguageQuery, llm_translate, store_execute,
      llm_synthesize, bind, record_call, lift, ret.
    cbn [set_calls db calls]. rewrite Ht, Hi, He. cbn [calls]. rewrite Hs.
    match goal with
    | |- context [cacheResponse ?k ?r ?w0] =>
        rewrite (cacheResponse_attempt k r w0 H)
    end.
    unfold attempted, cache_skipped, redisKey.
    cbn [set_calls cache_enabled cache_ttl redis db calls].
    destruct (negb (cache_enabled w) || negb (isRedisConnected (redis w)));
      repeat split; reflexivity.
  - intros e. unfold processQuery, bind. rewrite Hget. cbn [truthy].
    unfold processNaturalLanguageQuery, llm_translate, store_execute,
      llm_synthesize, bind, record_call, lift, ret.
    cbn [set_calls db calls].
    destruct (translate userId question) as [q|e1];
      [|cbn [fst]; intros [= <-]; now left].
    right. exists q. split; [reflexivity|].
    destruct (injectUserId q userId) as [q'|e2];
      [|cbn [fst] in *; left; congruence].
    right. exists q'. split; [reflexivity|].
    destruct (executeQuery (db w) q') as [data|e3] eqn:He.
    + right. exists data. split; [reflexivity|]. cbn [calls] in *.
      destruct (synthesize userName question data) as [answer|e4];
        [|cbn [fst] in *; congruence].
      exfalso.
      match goal with
      | Hthrow : context [cacheResponse ?k ?r ?w0] |- _ =>
          rewrite (cacheResponse_attempt k r w0 H) in Hthrow;
          discriminate Hthrow
      end.
    + left. destruct e3; cbn [fst] in *; congruence.
Qed.

(** ** The route *)

Lemma length_zero_empty (s : string) :
  (String.length s =? 0)%nat = false -> s <> EmptyString.
Proof.
  intros H ->. discriminate H.
Qed.

(** C9.  A request whose question is missing, is not a string, is empty
    after trimming or is longer than 500 characters, or whose [userId] or
    [userName] is missing, is answered with status 400 in the world it
    arrived in: nothing was asked of Redis, of the language model or of
    the store. *)
Theorem invalid_request_rejected (body : RequestBody) (w : World) :
  body_question body = JUndefined
  \/ (forall q, body_question body <> JStr q)
  \/ (exists q, body_question body = JStr q /\ JsString.trim q = EmptyString)
  \/ (exists q, body_question body = JStr q /\ 500 < String.length q)
  \/ missing (body_userId body) = true
  \/ missing (body_userName body) = true ->
  exists message,
    post_query body w = (Ok (bad_request message), w)
    /\ status_of (bad_request message) = 400
    /\ calls (snd (post_query body w)) = calls w.
Proof.
  intros H.
  assert (Hreply : exists message,
             post_query body w = (Ok (bad_request message), w));
    [|destruct Hreply as [message Hm]; exists message; rewrite Hm;
      repeat split; reflexivity].
  unfold post_query.
  destruct (truthy (body_question body)) eqn:Ht; cbn [negb];
    [|eexists; reflexivity].
  destruct (missing (body_userId body) || missing (body_userName body)) eqn:Hm;
    [eexists; reflexivity|].
  apply orb_false_iff in Hm. destruct Hm as [Hm1 Hm2].
  destruct (body_question body) as [| | b | n | q | l | o] eqn:Hq;
    try (eexists; reflexivity).
  destruct (String.length (JsString.trim q) =? 0)%nat eqn:Hl; [eexists; reflexivity|].
  destruct (500 <? String.length q)%nat eqn:H5; [eexists; reflexivity|].
  exfalso.
  destruct H as [H | [H | [[q' [Hq' H]] | [[q' [Hq' H]] | [H | H]]]]].
  - discriminate H.
  - exact (H q eq_refl).
  - injection Hq' as <-. exact (length_zero_empty _ Hl H).
  - injection Hq' as <-. apply Nat.ltb_ge in H5. lia.
  - congruence.
  - congruence.
Qed.

(** * Further properties *)

(** ** injectUserId *)

Lemma hasUserMatch_injected (userId : string) (p : list JsVal) :
  hasUserMatch (userMatchStage userId :: p) = Ok (JStr userId).
Proof. reflexivity. Qed.

Lemma truthy_user_id (userId : string) :
  userId <> EmptyString -> truthy (JStr userId) = true.
Proof. destruct userId; [congruence | reflexivity]. Qed.

(** X1.  [injectUserId] is idempotent for a user id that is not empty:
    the query it returns passes it unchanged. *)
Theorem injectUserId_idempotent (q q' : QueryDef) (userId : string) :
  userId <> EmptyString ->
  injectUserId q userId = Ok q' ->
  injectUserId q' userId = Ok q'.
Proof.
  intros Hu H. pose proof (truthy_user_id _ Hu) as Ht.
  unfold injectUserId in H.
  destruct (collection q =? "users") eqn:Hc.
  { injection H as <-. unfold injectUserId. now rewrite Hc. }
  assert (Hrest :
    (if (operation q =? "find") || (operation q =? "findOne")
     then if lacksUserId (query q)
          then Ok (set_query q (obj_set "user_id" (JStr userId) (spread (query q))))
          else Ok q
     else Ok q) = Ok q' ->
    (operation q =? "aggregate") = false \/ pipeline q = None ->
    injectUserId q' userId = Ok q').
  { intros H' Hbranch.
    destruct ((operation q =? "find") || (operation q =? "findOne")) eqn:Hf.
    - destruct (lacksUserId (query q)) eqn:HL; injection H' as <-.
      + unfold injectUserId, set_query;
          cbn [collection operation pipeline query].
        rewrite Hc, Hf.
        unfold lacksUserId. rewrite lookup_obj_set_same, Ht. cbn [negb].
        destruct Hbranch as [-> | ->]; [reflexivity|].
        now destruct (operation q =? "aggregate").
      + unfold injectUserId. rewrite Hc, Hf, HL.
        destruct Hbranch as [-> | ->]; [reflexivity|].
        now destruct (operation q =? "aggregate").
    - injection H' as <-. unfold injectUserId. rewrite Hc, Hf.
      destruct Hbranch as [-> | ->]; [reflexivity|].
      now destruct (operation q =? "aggregate"). }
  destruct (operation q =? "aggregate") eqn:Ha; [|now apply Hrest; [|left]].
  destruct (pipeline q) as [p|] eqn:Hp; [|now apply Hrest; [|right]].
  destruct (hasUserMatch p) as [h|e] eqn:Hh; cbn [rbind] in H; [|discriminate H].
  destruct (truthy h) eqn:Hth; cbn [negb] in H; injection H as <-.
  - unfold injectUserId. rewrite Hc, Ha, Hp, Hh. cbn [rbind]. now rewrite Hth.
  - unfold injectUserId, set_pipeline; cbn [collection operation pipeline].
    rewrite Hc, Ha, hasUserMatch_injected. cbn [rbind]. now rewrite Ht.
Qed.

(** X2.  [injectUserId] only adds the user filter: collection, operation
    and projection stay, every filter field but [user_id] keeps its
    value, and a pipeline stays as it is or gets the one stage in front. *)
Theorem injectUserId_only_adds (q q' : QueryDef) (userId : string) :
  injectUserId q userId = Ok q' ->
  collection q' = collection q
  /\ operation q' = operation q
  /\ projection q' = projection q
  /\ (forall k, k <> "user_id" ->
        lookup k (spread (query q')) = lookup k (spread (query q)))
  /\ match pipeline q with
     | Some p => pipeline q' = Some p
                 \/ pipeline q' = Some (userMatchStage userId :: p)
     | None => pipeline q' = None
     end.
Proof.
  intros H.
  assert (Hsame : q' = q ->
    collection q' = collection q /\ operation q' = operation q
    /\ projection q' = projection q
    /\ (forall k, k <> "user_id" ->
          lookup k (spread (query q')) = lookup k (spread (query q)))
    /\ match pipeline q with
       | Some p => pipeline q' = Some p
                   \/ pipeline q' = Some (userMatchStage userId :: p)
       | None => pipeline q' = None
       end).
  { intros ->. repeat split; try reflexivity.
    destruct (pipeline q); [now left | reflexivity]. }
  assert (Hfilter :
    q' = set_query q (obj_set "user_id" (JStr userId) (spread (query q))) ->
    collection q' = collection q /\ operation q' = operation q
    /\ projection q' = projection q
    /\ (forall k, k <> "user_id" ->
          lookup k (spread (query q')) = lookup k (spread (query q)))
    /\ match pipeline q with
       | Some p => pipeline q' = Some p
                   \/ pipeline q' = Some (userMatchStage userId :: p)
       | None => pipeline q' = None
       end).
  { intros ->. cbn [set_query collection operation projection query pipeline spread].
    repeat split; try reflexivity.
    - intros k Hk. now apply lookup_obj_set_other.
    - destruct (pipeline q); [now left | reflexivity]. }
  unfold injectUserId in H.
  destruct (collection q =? "users"); [injection H as <-; now apply Hsame|].
  destruct (operation q =? "aggregate"), (pipeline q) as [p|] eqn:Hp;
    try (destruct ((operation q =? "find") || (operation q =? "findOne"));
         [destruct (lacksUserId (query q))|];
         injection H as <-; (now apply Hsame) || (now apply Hfilter)).
  destruct (hasUserMatch p) as [h|e]; cbn [rbind] in H; [|discriminate H].
  destruct (truthy h); cbn [negb] in H; injection H as <-.
  - now apply Hsame.
  - cbn [set_pipeline collection operation projection query pipeline].
    repeat split; try reflexivity. now right.
Qed.

Lemma is_text_true (v : JsVal) (s : string) :
  Parsed.is_text v s = true <-> v = JStr s.
Proof.
  destruct v; cbn [Parsed.is_text]; split; intros H; try discriminate H.
  - apply String.eqb_eq in H. now subst.
  - injection H as ->. apply String.eqb_refl.
Qed.

(** The [aggregate] branch on a truthy pipeline. *)
Lemma aggregate_branch_throws (gt : JsVal -> option bool) (pipeline : JsVal)
  (kept : JsVal) (added : list JsVal -> JsVal) (e : JsError) :
  truthy pipeline = true ->
  (h <-! Parsed.hasUserMatch gt pipeline ;;
   if negb (truthy h)
   then items <-! Parsed.iterate pipeline ;; Ok (added items)
   else Ok kept) = Throw e
  <-> e = TypeError /\ Parsed.unusable gt pipeline.
Proof.
  intros Hp. unfold Parsed.hasUserMatch.
  destruct pipeline as [| | b | n | s | items | o]; try discriminate Hp.
  - cbn in Hp. subst b. cbn. split.
    + intros [= <-]. now split.
    + now intros [-> _].
  - cbn in Hp. apply negb_true_iff, Z.eqb_neq in Hp. cbn. split.
    + intros [= <-]. now split.
    + now intros [-> _].
  - destruct s as [|c r]; [discriminate Hp|]. cbn.
    split; [discriminate | intros [_ []]].
  - destruct items as [|first rest].
    + cbn. split; [discriminate | intros [_ [rest [H | H]]]; discriminate H].
    + cbn [get_prop String.eqb Ascii.eqb Bool.eqb List.length rbind
           Parsed.gt_zero Z.of_nat Z.ltb Z.compare].
      change (index_of_key "0") with (Some 0). cbn [nth rbind].
      destruct (get_prop first "$match") as [m|e1] eqn:Hm; cbn [rbind].
      * assert (Hok : (h <-! (if truthy m then get_prop m "user_id" else Ok m) ;;
                       if negb (truthy h)
                       then items <-! Parsed.iterate (JArr (first :: rest)) ;;
                            Ok (added items)
                       else Ok kept) <> Throw e).
        { destruct (truthy m) eqn:Ht.
          - destruct (get_prop m "user_id") as [v|e2] eqn:Hv;
              [|exfalso; exact (get_prop_of_truthy _ _ _ Ht Hv)].
            cbn. destruct (truthy v); discriminate.
          - cbn. rewrite Ht. discriminate. }
        split; [intros H; contradiction|].
        intros [_ [rest' [H | H]]]; injection H as -> _; discriminate Hm.
      * apply get_prop_throws in Hm. destruct Hm as [-> Hfirst]. split.
        -- intros [= <-]. split; [reflexivity|].
           exists rest. destruct Hfirst as [-> | ->]; [now left | now right].
        -- now intros [-> _].
  - cbn [get_prop rbind Parsed.unusable].
    destruct (Parsed.gt_zero gt (lookup "length" o)) as [[|]|e0] eqn:Hgt;
      cbn [rbind].
    + destruct (get_prop (lookup "0" o) "$match") as [m|e1] eqn:Hm; cbn [rbind].
      * destruct (truthy m) eqn:Ht.
        -- destruct (get_prop m "user_id") as [v|e2] eqn:Hv;
             [|exfalso; exact (get_prop_of_truthy _ _ _ Ht Hv)].
           cbn [rbind]. destruct (truthy v) eqn:Hvt; cbn.
           ++ split; [discriminate|]. intros [_ Hnot]. exfalso. apply Hnot.
              split; [reflexivity|]. exists m, v. now repeat split.
           ++ split.
              ** intros [= <-]. split; [reflexivity|].
                 intros [_ [m' [v' [Hm' [_ [Hv' Hvt']]]]]].
                 injection Hm' as <-. rewrite Hv in Hv'. injection Hv' as <-.
                 congruence.
              ** now intros [-> _].
        -- cbn. rewrite Ht. cbn. split.
           ++ intros [= <-]. split; [reflexivity|].
              intros [_ [m' [v' [Hm' [Ht' _]]]]]. injection Hm' as <-.
              congruence.
           ++ now intros [-> _].
      * apply get_prop_throws in Hm. destruct Hm as [-> Hfirst]. split.
        -- intros [= <-]. split; [reflexivity|].
           intros [_ [m' [v' [Hm' _]]]]. discriminate Hm'.
        -- now intros [-> _].
    + cbn. split.
      * intros [= <-]. split; [reflexivity|]. intros [H _]. discriminate H.
      * now intros [-> _].
    + assert (He0 : e0 = TypeError).
      { unfold Parsed.gt_zero in Hgt.
        destruct (lookup "length" o); try discriminate Hgt;
          destruct (gt _); congruence. }
      subst e0. split.
      * intros [= <-]. split; [reflexivity|]. intros [H _]. discriminate H.
      * now intros [-> _].
Qed.

(** X3.  On whatever [JSON.parse] returned, [injectUserId] throws
    TypeErrors only, and exactly in two cases: the value is [null], whose
    members cannot be read; or it is an object for an [aggregate] outside
    [users] whose pipeline is truthy and unusable: an array that begins
    with [null], a number, [true], or an object without a user filter in
    its member [0].  On every other value it returns. *)
Theorem injectUserId_throws_iff (gt : JsVal -> option bool) (queryDef : JsVal)
  (userId : string) (e : JsError) :
  Parsed.injectUserId gt queryDef userId = Throw e
  <-> e = TypeError
      /\ (queryDef = JNull \/ queryDef = JUndefined
          \/ exists o,
               queryDef = JObj o
               /\ lookup "collection" o <> JStr "users"
               /\ lookup "operation" o = JStr "aggregate"
               /\ Parsed.unusable gt (lookup "pipeline" o)).
Proof.
  assert (Hfind : forall (query kept added : JsVal),
            (lacks <-! (if negb (truthy query) then Ok true
                        else user_id <-! get_prop query "user_id" ;;
                             Ok (negb (truthy user_id))) ;;
             if lacks then Ok added else Ok kept) <> Throw e).
  { intros query kept added. destruct (truthy query) eqn:Ht; cbn [negb rbind].
    - destruct (get_prop query "user_id") as [u|e1] eqn:Hu;
        [|exfalso; exact (get_prop_of_truthy _ _ _ Ht Hu)].
      cbn [rbind]. destruct (negb (truthy u)); discriminate.
    - discriminate. }
  unfold Parsed.injectUserId.
  destruct queryDef as [| | b | n | s | items | o].
  - cbn. split; [intros [= <-]; split; [reflexivity | now right; left]
                |now intros [-> _]].
  - cbn. split; [intros [= <-]; split; [reflexivity | now left]
                |now intros [-> _]].
  - cbn. split; [discriminate|].
    intros [_ [H | [H | [o [H _]]]]]; discriminate H.
  - cbn. split; [discriminate|].
    intros [_ [H | [H | [o [H _]]]]]; discriminate H.
  - cbn. split; [discriminate|].
    intros [_ [H | [H | [o [H _]]]]]; discriminate H.
  - cbn. split; [discriminate|].
    intros [_ [H | [H | [o [H _]]]]]; discriminate H.
  - cbn [get_prop rbind].
    destruct (Parsed.is_text (lookup "collection" o) "users") eqn:Hc.
    { apply is_text_true in Hc. split; [discriminate|].
      intros [_ [H | [H | [o' [H [Hne _]]]]]]; try discriminate H.
      injection H as <-. contradiction. }
    assert (Hne : lookup "collection" o <> JStr "users").
    { intros H. apply is_text_true in H. congruence. }
    destruct (Parsed.is_text (lookup "operation" o) "aggregate") eqn:Ha;
      cbn [andb].
    + apply is_text_true in Ha.
      destruct (truthy (lookup "pipeline" o)) eqn:Hp.
      * rewrite aggregate_branch_throws by exact Hp. split.
        -- intros [-> Hbad]. split; [reflexivity|]. right. right.
           exists o. now repeat split.
        -- intros [-> [H | [H | [o' [H [_ [_ Hbad]]]]]]]; try discriminate H.
           injection H as <-. now split.
      * rewrite Ha. cbn [Parsed.is_text String.eqb Ascii.eqb Bool.eqb orb].
        split; [discriminate|].
        intros [_ [H | [H | [o' [H [_ [_ Hbad]]]]]]]; try discriminate H.
        injection H as <-.
        destruct (lookup "pipeline" o); try discriminate Hp; cbn in Hbad, Hp.
        -- contradiction.
        -- contradiction.
        -- congruence.
        -- apply negb_false_iff, Z.eqb_eq in Hp. contradiction.
        -- contradiction.
    + assert (Hop : lookup "operation" o <> JStr "aggregate").
      { intros H. apply is_text_true in H. congruence. }
      assert (Hret : (if Parsed.is_text (lookup "operation" o) "find"
                         || Parsed.is_text (lookup "operation" o) "findOne"
                      then
                        lacks <-! (if negb (truthy (lookup "query" o)) then Ok true
                                   else user_id <-! get_prop (lookup "query" o)
                                                      "user_id" ;;
                                        Ok (negb (truthy user_id))) ;;
                        if lacks
                        then Ok (Parsed.assign (JObj o) "query"
                                   (JObj (obj_set "user_id" (JStr userId)
                                            (spread_props (lookup "query" o)))))
                        else Ok (JObj o)
                      else Ok (JObj o)) <> Throw e).
      { destruct (_ || _); [apply Hfind | discriminate]. }
      split; [intros H; contradiction|].
      intros [_ [H | [H | [o' [H [_ [Hagg _]]]]]]]; try discriminate H.
      injection H as <-. contradiction.
Qed.

(** *** The query definitions among the parsed values *)

Lemma hasUserMatch_of_array (gt : JsVal -> option bool) (p : list JsVal) :
  Parsed.hasUserMatch gt (JArr p) = hasUserMatch p.
Proof.
  unfold Parsed.hasUserMatch, hasUserMatch.
  destruct p as [|first rest]; [reflexivity|].
  cbn [get_prop String.eqb Ascii.eqb Bool.eqb List.length rbind
       Parsed.gt_zero Z.of_nat Z.ltb Z.compare Nat.ltb Nat.leb].
  change (index_of_key "0") with (Some 0). reflexivity.
Qed.

Lemma describes_assigned_pipeline (o : JsObject) (q : QueryDef) (p : list JsVal) :
  describes (JObj o) q ->
  describes (JObj (obj_set "pipeline" (JArr p) o)) (set_pipeline q p).
Proof.
  intros [o' [[= <-] [Hc [Hop [Hq [Hpr _]]]]]].
  eexists. split; [reflexivity|]. cbn [set_pipeline collection operation query
                                       projection pipeline option_map member].
  rewrite lookup_obj_set_same, !lookup_obj_set_other by discriminate.
  now repeat split.
Qed.

Lemma describes_assigned_query (o : JsObject) (q : QueryDef) (f : JsObject) :
  describes (JObj o) q ->
  describes (JObj (obj_set "query" (JObj f) o)) (set_query q f).
Proof.
  intros [o' [[= <-] [Hc [Hop [_ [Hpr Hpl]]]]]].
  eexists. split; [reflexivity|]. cbn [set_query collection operation query
                                       projection pipeline option_map member].
  rewrite lookup_obj_set_same, !lookup_obj_set_other by discriminate.
  now repeat split.
Qed.

(** X23.  On an object that holds the members of a query definition, in
    whatever order and among whatever other members, the function followed
    on parsed values does what [injectUserId] does on the definition: it
    throws the same error, or returns an object with the members of the
    definition [injectUserId] returns. *)
Theorem injectUserId_on_described (gt : JsVal -> option bool) (v : JsVal)
  (q : QueryDef) (userId : string) :
  describes v q ->
  match injectUserId q userId with
  | Throw e => Parsed.injectUserId gt v userId = Throw e
  | Ok q' =>
      exists v', Parsed.injectUserId gt v userId = Ok v' /\ describes v' q'
  end.
Proof.
  intros Hd. pose proof Hd as [o [-> [Hc [Hop [Hq [Hpr Hpl]]]]]].
  unfold injectUserId, Parsed.injectUserId. cbn [get_prop rbind].
  rewrite Hc, Hop. cbn [Parsed.is_text].
  destruct (collection q =? "users"); [now exists (JObj o)|].
  assert (Hfind :
    match
      (if (operation q =? "find") || (operation q =? "findOne")
       then if lacksUserId (query q)
            then Ok (set_query q (obj_set "user_id" (JStr userId)
                                    (spread (query q))))
            else Ok q
       else Ok q)
    with
    | Throw e =>
        (if (operation q =? "find") || (operation q =? "findOne")
         then
           lacks <-! (if negb (truthy (lookup "query" o)) then Ok true
                      else user_id <-! get_prop (lookup "query" o) "user_id" ;;
                           Ok (negb (truthy user_id))) ;;
           if lacks
           then Ok (Parsed.assign (JObj o) "query"
                      (JObj (obj_set "user_id" (JStr userId)
                               (spread_props (lookup "query" o)))))
           else Ok (JObj o)
         else Ok (JObj o)) = Throw e
    | Ok q' =>
        exists v',
          (if (operation q =? "find") || (operation q =? "findOne")
           then
             lacks <-! (if negb (truthy (lookup "query" o)) then Ok true
                        else user_id <-! get_prop (lookup "query" o) "user_id" ;;
                             Ok (negb (truthy user_id))) ;;
             if lacks
             then Ok (Parsed.assign (JObj o) "query"
                        (JObj (obj_set "user_id" (JStr userId)
                                 (spread_props (lookup "query" o)))))
             else Ok (JObj o)
           else Ok (JObj o)) = Ok v'
          /\ describes v' q'
    end).
  { destruct ((operation q =? "find") || (operation q =? "findOne"));
      [|now exists (JObj o)].
    destruct (query q) as [f|] eqn:Hf; cbn [option_map member] in Hq.
    - rewrite Hq. cbn [truthy negb get_prop rbind lacksUserId spread spread_props].
      destruct (negb (truthy (lookup "user_id" f))).
      + eexists. split; [reflexivity|].
        cbn [Parsed.assign]. now apply describes_assigned_query.
      + exists (JObj o). split; [reflexivity|]. exact Hd.
    - cbn [lacksUserId spread].
      destruct Hq as [-> | ->]; cbn [truthy negb rbind spread_props];
        (eexists; split; [reflexivity|];
         cbn [Parsed.assign]; now apply describes_assigned_query). }
  destruct (operation q =? "aggregate"); cbn [andb]; [|exact Hfind].
  destruct (pipeline q) as [p|] eqn:Hp; cbn [option_map member] in Hpl.
  - rewrite Hpl. cbn [truthy]. rewrite hasUserMatch_of_array.
    destruct (hasUserMatch p) as [h|e]; cbn [rbind]; [|reflexivity].
    destruct (negb (truthy h)); cbn [Parsed.iterate rbind].
    + eexists. split; [reflexivity|].
      cbn [Parsed.assign]. now apply describes_assigned_pipeline.
    + exists (JObj o). split; [reflexivity|]. exact Hd.
  - destruct Hpl as [-> | ->]; cbn [truthy]; exact Hfind.
Qed.

(** ** executeQuery *)

Lemma lookup_absent (k : string) (o : JsObject) :
  (forall v, ~ In (k, v) o) -> lookup k o = JUndefined.
Proof.
  induction o as [|[k' v'] r IH]; intros H; cbn [lookup]; [reflexivity|].
  destruct (k' =? k) eqn:E.
  - apply String.eqb_eq in E. subst k'. exfalso. apply (H v'). now left.
  - apply IH. intros v Hv. apply (H v). now right.
Qed.

Lemma obj_set_absent (k : string) (v : JsVal) (o : JsObject) :
  (forall v', ~ In (k, v') o) -> obj_set k v o = (o ++ [(k, v)])%list.
Proof.
  induction o as [|[k' v'] r IH]; intros H; cbn [obj_set app]; [reflexivity|].
  destruct (k' =? k) eqn:E.
  - apply String.eqb_eq in E. subst k'. exfalso. apply (H v'). now left.
  - f_equal. apply IH. intros v0 Hv. apply (H v0). now right.
Qed.

Lemma filter_andb {A : Type} (P Q : A -> bool) (l : list A) :
  List.filter (fun x => P x && Q x) l = List.filter Q (List.filter P l).
Proof.
  induction l as [|a l IH]; cbn [List.filter]; [reflexivity|].
  destruct (P a); cbn [andb List.filter]; [|exact IH].
  destruct (Q a); now rewrite IH.
Qed.

Lemma matches_with_user_id (userId : string) (f : JsObject) (d : Doc) :
  (forall v, ~ In ("user_id", v) f) ->
  matches (obj_set "user_id" (JStr userId) f) d
  = matches f d && owned_by userId d.
Proof.
  intros H. rewrite (obj_set_absent _ _ _ H). unfold matches.
  rewrite forallb_app. cbn [forallb fst snd].
  now rewrite field_condition_user_id, andb_true_r.
Qed.

(** X4.  For a [find] on a collection that carries [user_id] whose filter
    has no [user_id] key, the documents selected after [injectUserId] are
    exactly the user's documents among those the given query selects, in
    the same order: none of the user's own is lost. *)
Theorem injected_find_selects_own_share (db : Db) (q : QueryDef)
  (userId : string) :
  tenant_owned (collection q) = true ->
  operation q = "find" ->
  (forall v, ~ In ("user_id", v) (spread (query q))) ->
  exists q' selected,
    injectUserId q userId = Ok q'
    /\ executeQuery db q
       = Ok (Rows (map (project (projection q)) selected))
    /\ executeQuery db q'
       = Ok (Rows (map (project (projection q))
                     (List.filter (owned_by userId) selected))).
Proof.
  intros Hc Hop Hkey.
  pose proof (tenant_owned_allowed _ Hc) as Ha.
  exists (set_query q (obj_set "user_id" (JStr userId) (spread (query q)))),
    (List.filter (matches (spread (query q))) (db (collection q))).
  split; [|split].
  - unfold injectUserId.
    rewrite (tenant_owned_not_users _ Hc), Hop. cbn [String.eqb Ascii.eqb Bool.eqb orb].
    assert (HL : lacksUserId (query q) = true).
    { unfold lacksUserId. destruct (query q) as [f|]; [|reflexivity].
      cbn [spread] in Hkey. now rewrite (lookup_absent _ _ Hkey). }
    now rewrite HL.
  - unfold executeQuery. rewrite Ha, Hop. reflexivity.
  - rewrite executeQuery_injected_find by assumption.
    unfold col_find. do 2 f_equal. f_equal.
    rewrite <- filter_andb. apply filter_ext.
    intros d. now apply matches_with_user_id.
Qed.

(** ** The cache service *)

Lemma assoc_set_same {V : Type} (k : string) (v : V) (l : list (string * V)) :
  assoc k (assoc_set k v l) = Some v.
Proof.
  induction l as [|[k' v'] r IH]; cbn [assoc_set assoc].
  - now rewrite String.eqb_refl.
  - destruct (k' =? k) eqn:E; cbn [assoc].
    + now rewrite String.eqb_refl.
    + now rewrite E.
Qed.

Lemma assoc_set_other {V : Type} (k k' : string) (v : V) (l : list (string * V)) :
  k' <> k -> assoc k' (assoc_set k v l) = assoc k' l.
Proof.
  intros Hne. apply String.eqb_neq in Hne.
  induction l as [|[k0 v0] r IH]; cbn [assoc_set assoc].
  - now rewrite String.eqb_sym, Hne.
  - destruct (k0 =? k) eqn:E; cbn [assoc].
    + apply String.eqb_eq in E. subst k0.
      now rewrite String.eqb_sym, Hne.
    + destruct (k0 =? k'); [reflexivity | exact IH].
Qed.

(** What a lookup makes of the entry found under the key. *)
Lemma getCachedResponse_reachable (key : string) (w : World) :
  cache_enabled w = true ->
  isRedisConnected (redis w) = true ->
  responding (redis w) = true ->
  getCachedResponse key w
  = (Ok match assoc (generateCacheKey key) (entries (redis w)) with
        | Some (_, text) =>
            if truthy (JStr text)
            then match JSON_parse text with
                 | Ok v => v
                 | Throw _ => JNull
                 end
            else JNull
        | None => JNull
        end,
     set_calls w (RedisGet (generateCacheKey key) :: calls w)).
Proof.
  intros He Hc Hr. unfold getCachedResponse, cache_skipped.
  rewrite He, Hc. cbn [negb orb].
  unfold try_catch, redis_get, bind, record_call, lift, ret.
  cbn [set_calls redis]. rewrite Hr.
  destruct (assoc (generateCacheKey key) (entries (redis w))) as [[ttl text]|];
    cbn [option_map snd]; [|reflexivity].
  destruct (truthy (JStr text)); [|reflexivity].
  now destruct (JSON_parse text).
Qed.

Lemma cacheResponse_reachable (key : string) (response : JsVal) (w : World) :
  cache_enabled w = true ->
  isRedisConnected (redis w) = true ->
  responding (redis w) = true ->
  cacheResponse key response w
  = (Ok tt,
     mkWorld (cache_enabled w) (cache_ttl w)
       (mkRedisClient (isOpen (redis w)) (isReady (redis w))
          (responding (redis w))
          (assoc_set (generateCacheKey key)
             (cache_ttl w, JSON_stringify response) (entries (redis w))))
       (db w)
       (RedisSetEx (generateCacheKey key) (cache_ttl w)
          (JSON_stringify response) :: calls w)).
Proof.
  intros He Hc Hr. unfold cacheResponse, cache_skipped.
  rewrite He, Hc. cbn [negb orb].
  unfold try_catch, redis_setEx, bind, record_call, ret.
  cbn [set_calls redis cache_enabled cache_ttl db calls]. rewrite Hr, ?He.
  reflexivity.
Qed.

(** The answer of a lookup depends on the switch and on the client only. *)
Lemma getCachedResponse_depends_on_cache (key : string) (w w' : World) :
  cache_enabled w' = cache_enabled w ->
  redis w' = redis w ->
  fst (getCachedResponse key w') = fst (getCachedResponse key w).
Proof.
  intros He Hr. unfold getCachedResponse, cache_skipped.
  rewrite He, Hr.
  destruct (negb (cache_enabled w) || negb (isRedisConnected (redis w)));
    [reflexivity|].
  unfold try_catch, redis_get, bind, record_call, lift, ret.
  cbn [set_calls redis]. rewrite Hr.
  destruct (responding (redis w)); [|reflexivity].
  destruct (option_map snd (assoc (generateCacheKey key) (entries (redis w))))
    as [text|]; [|reflexivity].
  destruct (truthy (JStr text)); [|reflexivity].
  now destruct (JSON_parse text).
Qed.

(** X5.  With the cache in use and Redis answering, a response stored for
    a question is what a lookup returns for every question with the same
    normalised text, provided its JSON text parses back to it. *)
Theorem cached_response_round_trip (w : World) (question question' : string)
  (response : JsVal) :
  cache_enabled w = true ->
  isRedisConnected (redis w) = true ->
  responding (redis w) = true ->
  normalized question' = normalized question ->
  JSON_stringify response <> EmptyString ->
  JSON_parse (JSON_stringify response) = Ok response ->
  fst (getCachedResponse question'
         (snd (cacheResponse question response w)))
  = Ok response.
Proof.
  intros He Hc Hr Hn Htext Hparse.
  rewrite (cacheResponse_reachable _ _ _ He Hc Hr). cbn [snd].
  rewrite getCachedResponse_reachable by assumption.
  cbn [fst redis entries]. unfold generateCacheKey. rewrite Hn.
  rewrite assoc_set_same, Hparse.
  destruct (JSON_stringify response); [congruence | reflexivity].
Qed.

(** X6.  Storing a response for one question leaves the answer of a
    lookup for every question with another key as it was, whatever the
    state of the cache. *)
Theorem cacheResponse_keeps_other_questions (w : World)
  (question other : string) (response : JsVal) :
  generateCacheKey other <> generateCacheKey question ->
  fst (getCachedResponse other (snd (cacheResponse question response w)))
  = fst (getCachedResponse other w).
Proof.
  intros Hne.
  destruct (cache_enabled w) eqn:He; [destruct (isRedisConnected (redis w)) eqn:Hc;
    [destruct (responding (redis w)) eqn:Hr|]|].
  - rewrite (cacheResponse_reachable _ _ _ He Hc Hr). cbn [snd].
    rewrite !getCachedResponse_reachable by (cbn; assumption).
    cbn [fst redis entries]. now rewrite assoc_set_other.
  - apply getCachedResponse_depends_on_cache;
      destruct (cacheResponse_unreachable question response w
                  (or_intror (or_intror Hr))) as [cs ->]; reflexivity.
  - apply getCachedResponse_depends_on_cache;
      destruct (cacheResponse_unreachable question response w
                  (or_intror (or_introl Hc))) as [cs ->]; reflexivity.
  - apply getCachedResponse_depends_on_cache;
      destruct (cacheResponse_unreachable question response w
                  (or_introl He)) as [cs ->]; reflexivity.
Qed.

(** X7.  Neither [getCachedResponse] nor [cacheResponse] ever throws,
    whatever Redis and [JSON.parse] do; neither changes the store, and a
    lookup changes no entry. *)
Theorem cache_service_never_throws (key : string) (response : JsVal)
  (w : World) :
  (exists v w', getCachedResponse key w = (Ok v, w')
                /\ db w' = db w /\ redis w' = redis w)
  /\ (exists w', cacheResponse key response w = (Ok tt, w') /\ db w' = db w).
Proof.
  split.
  - unfold getCachedResponse.
    destruct (cache_skipped w); [now exists JNull, w|].
    unfold try_catch, redis_get, bind, record_call, lift, ret.
    cbn [set_calls redis].
    destruct (responding (redis w)); [|now eexists; eexists].
    destruct (option_map snd (assoc (generateCacheKey key) (entries (redis w))))
      as [text|]; [|now eexists; eexists].
    destruct (truthy (JStr text)); [|now eexists; eexists].
    destruct (JSON_parse text); now eexists; eexists.
  - unfold cacheResponse.
    destruct (cache_skipped w); [now exists w|].
    unfold try_catch, redis_setEx, bind, record_call, ret.
    cbn [set_calls redis].
    destruct (responding (redis w)); now eexists.
Qed.

(** ** invalidateCache and getCacheStats *)

Lemma includes_In (l : list string) (x : string) :
  includes l x = true <-> In x l.
Proof.
  unfold includes. rewrite existsb_exists. split.
  - intros [y [Hy E]]. apply String.eqb_eq in E. now subst.
  - intros H. exists x. split; [exact H | apply String.eqb_refl].
Qed.

Lemma includes_matching_keys (glob : string) (l : list (string * (Z * string)))
  (e : string * (Z * string)) :
  In e l ->
  includes (List.filter (key_matches glob) (map fst l)) (fst e)
  = key_matches glob (fst e).
Proof.
  intros He. destruct (key_matches glob (fst e)) eqn:Hm.
  - apply includes_In, filter_In. split; [now apply in_map | exact Hm].
  - destruct (includes _ (fst e)) eqn:Hi; [|reflexivity].
    apply includes_In, filter_In in Hi. destruct Hi as [_ Hi]. congruence.
Qed.

Lemma filter_map_fst_length {A B : Type} (P : A -> bool) (l : list (A * B)) :
  List.length (List.filter P (map fst l))
  = List.length (List.filter (fun e => P (fst e)) l).
Proof.
  induction l as [|e l IH]; cbn [map List.filter]; [reflexivity|].
  destruct (P (fst e)); cbn [List.length]; now rewrite IH.
Qed.

Lemma deleted_keys_are_gone (glob : string) (l : list (string * (Z * string))) :
  List.filter (fun e => negb (includes (List.filter (key_matches glob) (map fst l))
                            (fst e))) l
  = List.filter (fun e => negb (key_matches glob (fst e))) l.
Proof.
  apply filter_ext_in. intros e He. now rewrite includes_matching_keys.
Qed.

Lemma no_keys_nothing_matches (glob : string) (l : list (string * (Z * string))) :
  List.filter (key_matches glob) (map fst l) = [] ->
  List.filter (fun e => negb (key_matches glob (fst e))) l = l.
Proof.
  intros H. rewrite <- deleted_keys_are_gone, H.
  transitivity (List.filter (fun _ => true) l).
  - apply filter_ext. reflexivity.
  - clear H. induction l as [|e l IH]; simpl; [reflexivity | now rewrite IH].
Qed.

Lemma none_left_matching (glob : string) (l : list (string * (Z * string))) :
  List.filter (key_matches glob)
    (map fst (List.filter (fun e => negb (key_matches glob (fst e))) l)) = [].
Proof.
  induction l as [|e l IH]; cbn [List.filter map]; [reflexivity|].
  destruct (key_matches glob (fst e)) eqn:Hm; cbn [negb]; [exact IH|].
  cbn [map List.filter]. now rewrite Hm.
Qed.

Lemma assoc_of_deleted {V : Type} (P : string -> bool) (k : string)
  (l : list (string * V)) :
  P k = true ->
  assoc k (List.filter (fun e => negb (P (fst e))) l) = None.
Proof.
  intros Hk. induction l as [|[k' v] l IH]; cbn [List.filter fst]; [reflexivity|].
  destruct (P k') eqn:Hp; cbn [negb]; [exact IH|].
  cbn [assoc]. destruct (k' =? k) eqn:E; [|exact IH].
  apply String.eqb_eq in E. congruence.
Qed.

Lemma invalidateCache_usable (pattern : option string) (c : RedisClient) :
  isRedisConnected c = true ->
  responding c = true ->
  invalidateCache pattern c
  = let glob := match pattern with Some p => p | None => "query:*" end in
    (Z.of_nat (List.length
                 (List.filter (fun e => key_matches glob (fst e)) (entries c))),
     mkRedisClient (isOpen c) (isReady c) (responding c)
       (List.filter (fun e => negb (key_matches glob (fst e))) (entries c))).
Proof.
  intros Hc Hr. unfold invalidateCache, redis_keys, redis_del.
  rewrite Hc, Hr. cbn [negb]. cbv zeta.
  set (glob := match pattern with Some p => p | None => "query:*" end).
  rewrite <- filter_map_fst_length.
  destruct (List.filter (key_matches glob) (map fst (entries c))) as [|k ks] eqn:Hk.
  - cbn [List.length Nat.ltb Nat.leb].
    rewrite (no_keys_nothing_matches _ _ Hk).
    f_equal. destruct c; cbn in *. now rewrite Hr.
  - cbn [List.length Nat.ltb Nat.leb]. rewrite <- Hk.
    now rewrite deleted_keys_are_gone.
Qed.

(** X8.  On a client that is connected and answered, [invalidateCache]
    deletes exactly the entries whose key matches the pattern, keeps the
    others in their order and returns the number of entries deleted; on
    any other client it deletes nothing and returns 0.  It never throws,
    and it does not look at the switch that disables caching. *)
Theorem invalidateCache_deletes_matching (pattern : option string)
  (c : RedisClient) :
  let glob := match pattern with Some p => p | None => "query:*" end in
  let usable := isRedisConnected c && responding c in
  fst (invalidateCache pattern c)
  = (if usable
     then Z.of_nat (List.length
                      (List.filter (fun e => key_matches glob (fst e)) (entries c)))
     else 0%Z)
  /\ entries (snd (invalidateCache pattern c))
     = (if usable
        then List.filter (fun e => negb (key_matches glob (fst e))) (entries c)
        else entries c)
  /\ (Z.of_nat (List.length (entries (snd (invalidateCache pattern c))))
      + fst (invalidateCache pattern c)
      = Z.of_nat (List.length (entries c)))%Z.
Proof.
  cbv zeta.
  destruct (isRedisConnected c) eqn:Hc; [destruct (responding c) eqn:Hr|];
    cbn [andb].
  - rewrite (invalidateCache_usable _ _ Hc Hr). cbv zeta. cbn [fst snd entries].
    split; [reflexivity|]. split; [reflexivity|].
    rewrite <- Nat2Z.inj_add. f_equal.
    set (P := fun e : string * (Z * string) =>
                key_matches match pattern with Some p => p | None => "query:*" end
                  (fst e)).
    change (List.length (List.filter (fun e => negb (P e)) (entries c))
            + List.length (List.filter P (entries c))
            = List.length (entries c)).
    induction (entries c) as [|e l IH]; cbn [List.filter]; [reflexivity|].
    destruct (P e); cbn [negb List.length]; lia.
  - unfold invalidateCache, redis_keys. rewrite Hc, Hr. cbn [negb fst snd].
    repeat split; lia.
  - unfold invalidateCache. rewrite Hc. cbn [negb fst snd].
    repeat split; lia.
Qed.

(** X9.  After [invalidateCache()] on a connected, answering client,
    [getCacheStats] reports no cached query: it counts the keys the
    default pattern deletes. *)
Theorem stats_after_invalidation (w : World) :
  isRedisConnected (redis w) = true ->
  responding (redis w) = true ->
  getCacheStats (set_redis w (snd (invalidateCache None (redis w))))
  = JObj [("connected", JBool true);
          ("cachedQueries", JNum 0);
          ("ttl", JNum (cache_ttl w))].
Proof.
  intros Hc Hr. rewrite (invalidateCache_usable _ _ Hc Hr). cbv zeta.
  unfold getCacheStats, redis_keys, redis_info, set_redis, isRedisConnected.
  cbn [snd redis cache_ttl isOpen isReady responding entries].
  unfold isRedisConnected in Hc. rewrite Hc, Hr. cbn [negb].
  now rewrite none_left_matching.
Qed.

(** X10.  If the server matches the pattern ['query:*'] with every key
    that begins with "query:", then after [invalidateCache()] no question
    is answered from the cache, in any state of the world. *)
Theorem no_hit_after_invalidation (w : World) (question : string) :
  (forall rest, key_matches "query:*" ("query:" ++ rest) = true) ->
  fst (getCachedResponse question
         (set_redis w (snd (invalidateCache None (redis w)))))
  = Ok JNull.
Proof.
  intros Hglob.
  destruct (cache_enabled w) eqn:He;
    [destruct (isRedisConnected (redis w)) eqn:Hc;
       [destruct (responding (redis w)) eqn:Hr|]|].
  - rewrite (invalidateCache_usable _ _ Hc Hr). cbv zeta. cbn [snd].
    rewrite (getCachedResponse_reachable question
               (set_redis w
                  (mkRedisClient (isOpen (redis w)) (isReady (redis w))
                     (responding (redis w))
                     (List.filter
                        (fun e => negb (key_matches "query:*" (fst e)))
                        (entries (redis w))))) He Hc Hr).
    cbn [fst set_redis redis entries].
    rewrite (assoc_of_deleted (key_matches "query:*")); [reflexivity|].
    apply Hglob.
  - destruct (getCachedResponse_unreachable question
                (set_redis w (snd (invalidateCache None (redis w)))))
      as [cs ->]; [|reflexivity].
    right. right. unfold invalidateCache, redis_keys. rewrite Hc, Hr.
    cbn [negb snd set_redis redis]. exact Hr.
  - destruct (getCachedResponse_unreachable question
                (set_redis w (snd (invalidateCache None (redis w)))))
      as [cs ->]; [|reflexivity].
    right. left. unfold invalidateCache. rewrite Hc.
    cbn [negb snd set_redis redis]. exact Hc.
  - destruct (getCachedResponse_unreachable question
                (set_redis w (snd (invalidateCache None (redis w)))))
      as [cs ->]; [|reflexivity].
    left. exact He.
Qed.

(** Membership in a short list of calls, by cases. *)
Ltac intros_in_false :=
  repeat match goal with
         | |- ~ _ => intro
         | H : In _ (_ :: _) |- _ => destruct H as [H | H]
         | H : In _ [] |- _ => destruct H
         | H : _ = _ |- _ => discriminate H
         | H : StoreQuery _ = StoreQuery _ |- _ => injection H as H
         | H : LlmSynthesize _ _ _ = LlmSynthesize _ _ _ |- _ => injection H as ? ? H
         end.

(** ** processQuery *)

Lemma getCachedResponse_calls (key : string) (w : World) :
  exists v new,
    getCachedResponse key w = (Ok v, set_calls w (new ++ calls w)%list)
    /\ forall c, In c new -> c = RedisGet (generateCacheKey key).
Proof.
  unfold getCachedResponse.
  destruct (cache_skipped w).
  { exists JNull, []. split; [now destruct w | intros c []]. }
  unfold try_catch, redis_get, bind, record_call, lift, ret.
  cbn [set_calls redis].
  assert (Hnew : forall c, In c [RedisGet (generateCacheKey key)] ->
                           c = RedisGet (generateCacheKey key))
    by (intros c [<- | []]; reflexivity).
  destruct (responding (redis w));
    [|exists JNull, [RedisGet (generateCacheKey key)]; now split].
  destruct (option_map snd (assoc (generateCacheKey key) (entries (redis w))))
    as [text|];
    [|exists JNull, [RedisGet (generateCacheKey key)]; now split].
  destruct (truthy (JStr text));
    [|exists JNull, [RedisGet (generateCacheKey key)]; now split].
  destruct (JSON_parse text) as [v|e];
    [exists v | exists JNull]; exists [RedisGet (generateCacheKey key)];
    now split.
Qed.

Lemma cacheResponse_effect (key : string) (response : JsVal) (w : World) :
  exists new,
    (forall c, In c new ->
       c = RedisSetEx (generateCacheKey key) (cache_ttl w) (JSON_stringify response))
    /\ (cacheResponse key response w = (Ok tt, set_calls w (new ++ calls w)%list)
        \/ cacheResponse key response w
           = (Ok tt,
              mkWorld (cache_enabled w) (cache_ttl w)
                (mkRedisClient (isOpen (redis w)) (isReady (redis w))
                   (responding (redis w))
                   (assoc_set (generateCacheKey key)
                      (cache_ttl w, JSON_stringify response)
                      (entries (redis w))))
                (db w) (new ++ calls w)%list)).
Proof.
  unfold cacheResponse.
  destruct (cache_skipped w).
  { exists []. split; [intros c [] | left; now destruct w]. }
  exists [RedisSetEx (generateCacheKey key) (cache_ttl w) (JSON_stringify response)].
  split; [intros c [<- | []]; reflexivity|].
  unfold try_catch, redis_setEx, bind, record_call, ret.
  cbn [set_calls redis cache_enabled cache_ttl db calls].
  destruct (responding (redis w)); [right | left]; reflexivity.
Qed.

Lemma chain_calls (question userId userName : string) (w : World) :
  exists new,
    snd (processNaturalLanguageQuery question userId userName w)
    = set_calls w (new ++ calls w)%list
    /\ (forall sq, In (StoreQuery sq) new ->
          exists mq, translate userId question = Ok mq
                     /\ injectUserId mq userId = Ok sq)
    /\ (forall name q data, In (LlmSynthesize name q data) new ->
          exists sq, In (StoreQuery sq) new
                     /\ executeQuery (db w) sq = Ok data)
    /\ (forall key, ~ In (RedisGet key) new)
    /\ (forall key ttl text, ~ In (RedisSetEx key ttl text) new).
Proof.
  unfold processNaturalLanguageQuery, llm_translate, store_execute,
    llm_synthesize, bind, record_call, lift, ret.
  cbn [set_calls db calls].
  assert (Hfirst : exists new,
            set_calls w (LlmTranslate userId question :: calls w)
            = set_calls w (new ++ calls w)%list
            /\ (forall sq, In (StoreQuery sq) new ->
                  exists mq, translate userId question = Ok mq
                             /\ injectUserId mq userId = Ok sq)
            /\ (forall name q data, In (LlmSynthesize name q data) new ->
                  exists sq, In (StoreQuery sq) new
                             /\ executeQuery (db w) sq = Ok data)
            /\ (forall key, ~ In (RedisGet key) new)
            /\ (forall key ttl text, ~ In (RedisSetEx key ttl text) new)).
  { exists [LlmTranslate userId question]. split; [reflexivity|].
    repeat split; intros; intros_in_false. }
  destruct (translate userId question) as [mq|e] eqn:Ht; [|exact Hfirst].
  destruct (injectUserId mq userId) as [sq|e] eqn:Hi; [|exact Hfirst].
  assert (Hsecond : exists new,
            set_calls w (StoreQuery sq :: LlmTranslate userId question :: calls w)
            = set_calls w (new ++ calls w)%list
            /\ (forall sq', In (StoreQuery sq') new ->
                  exists mq', Ok mq = Ok mq' /\ injectUserId mq' userId = Ok sq')
            /\ (forall name q data, In (LlmSynthesize name q data) new ->
                  exists sq', In (StoreQuery sq') new
                              /\ executeQuery (db w) sq' = Ok data)
            /\ (forall key, ~ In (RedisGet key) new)
            /\ (forall key ttl text, ~ In (RedisSetEx key ttl text) new)).
  { exists [StoreQuery sq; LlmTranslate userId question]. split; [reflexivity|].
    repeat split; intros; intros_in_false.
    exists mq. split; [reflexivity | congruence]. }
  destruct (executeQuery (db w) sq) as [data|e] eqn:He.
  - destruct (synthesize userName question data) as [answer|e'].
    + exists [LlmSynthesize userName question data; StoreQuery sq;
              LlmTranslate userId question]. split; [reflexivity|].
      repeat split; intros; intros_in_false.
      * exists mq. split; [reflexivity | congruence].
      * exists sq. split; [right; now left | congruence].
    + exists [LlmSynthesize userName question data; StoreQuery sq;
              LlmTranslate userId question]. split; [reflexivity|].
      repeat split; intros; intros_in_false.
      * exists mq. split; [reflexivity | congruence].
      * exists sq. split; [right; now left | congruence].
  - destruct e; try exact Hsecond; exact Hfirst.
Qed.

Lemma chain_result_is_object (question userId userName : string) (w : World)
  (result : JsVal) :
  fst (processNaturalLanguageQuery question userId userName w) = Ok result ->
  truthy result = true.
Proof.
  unfold processNaturalLanguageQuery, llm_translate, store_execute,
    llm_synthesize, bind, record_call, lift, ret.
  cbn [set_calls db].
  destruct (translate userId question) as [mq|e]; [|discriminate].
  destruct (injectUserId mq userId) as [sq|e]; [|discriminate].
  destruct (executeQuery (db w) sq) as [data|e];
    [|destruct e; discriminate].
  destruct (synthesize userName question data) as [answer|e]; [|discriminate].
  cbn [fst]. intros H. injection H as <-. reflexivity.
Qed.

Lemma hit_on_entry (w : World) (question userId userName : string)
  (ttl : Z) (text : string) (cached : JsVal) :
  cache_enabled w = true ->
  isRedisConnected (redis w) = true ->
  responding (redis w) = true ->
  assoc (redisKey userId question) (entries (redis w)) = Some (ttl, text) ->
  text <> EmptyString ->
  JSON_parse text = Ok cached ->
  truthy cached = true ->
  processQuery question userId userName w
  = (Ok (with_fromCache true cached),
     set_calls w (RedisGet (redisKey userId question) :: calls w)).
Proof.
  intros He Hc Hr Hentry Htext Hparse Ht.
  unfold processQuery, bind.
  rewrite (getCachedResponse_reachable _ _ He Hc Hr).
  unfold redisKey in Hentry. rewrite Hentry, Hparse.
  destruct text; [congruence|]. cbn [truthy JsString.is_empty negb].
  now rewrite Ht.
Qed.

(** X11.  When the lookup finds a truthy cached value, [processQuery]
    returns it with [fromCache: true] and the only call that leaves the
    process is the one [GET] to Redis: the language model and the store
    are not asked. *)
Theorem cache_hit_skips_the_chain (w : World)
  (question userId userName : string) (cached : JsVal) :
  fst (getCachedResponse (cacheKey userId question) w) = Ok cached ->
  truthy cached = true ->
  processQuery question userId userName w
  = (Ok (with_fromCache true cached),
     set_calls w (RedisGet (redisKey userId question) :: calls w)).
Proof.
  intros Hget Ht.
  destruct (cache_enabled w) eqn:He;
    [destruct (isRedisConnected (redis w)) eqn:Hc;
       [destruct (responding (redis w)) eqn:Hr|]|].
  - rewrite (getCachedResponse_reachable _ _ He Hc Hr) in Hget.
    cbn [fst] in Hget.
    destruct (assoc (generateCacheKey (cacheKey userId question))
                (entries (redis w))) as [[ttl text]|] eqn:Hentry;
      [|injection Hget as <-; discriminate Ht].
    destruct (truthy (JStr text)) eqn:Htext;
      [|injection Hget as <-; discriminate Ht].
    destruct (JSON_parse text) as [v|e] eqn:Hparse;
      injection Hget as <-; [|discriminate Ht].
    apply (hit_on_entry w question userId userName ttl text v); try assumption.
    intros ->. discriminate Htext.
  - exfalso.
    destruct (getCachedResponse_unreachable (cacheKey userId question) w
                (or_intror (or_intror Hr))) as [cs Hn].
    rewrite Hn in Hget. injection Hget as <-. discriminate Ht.
  - exfalso.
    destruct (getCachedResponse_unreachable (cacheKey userId question) w
                (or_intror (or_introl Hc))) as [cs Hn].
    rewrite Hn in Hget. injection Hget as <-. discriminate Ht.
  - exfalso.
    destruct (getCachedResponse_unreachable (cacheKey userId question) w
                (or_introl He)) as [cs Hn].
    rewrite Hn in Hget. injection Hget as <-. discriminate Ht.
Qed.

(** X12.  With the cache in use and Redis answering, a question answered
    by the query chain is answered from the cache when it is asked again
    by the same user in any wording with the same key: the second answer
    is the first result with [fromCache: true], and costs one [GET]. *)
Theorem repeated_question_is_a_hit (w : World)
  (question question' userId userName : string) (result : JsVal) :
  cache_enabled w = true ->
  isRedisConnected (redis w) = true ->
  responding (redis w) = true ->
  assoc (redisKey userId question) (entries (redis w)) = None ->
  fst (processNaturalLanguageQuery question userId userName w) = Ok result ->
  JSON_stringify result <> EmptyString ->
  JSON_parse (JSON_stringify result) = Ok result ->
  redisKey userId question' = redisKey userId question ->
  exists w1,
    processQuery question userId userName w
    = (Ok (with_fromCache false result), w1)
    /\ processQuery question' userId userName w1
       = (Ok (with_fromCache true result),
          set_calls w1 (RedisGet (redisKey userId question) :: calls w1)).
Proof.
  intros He Hc Hr Hmiss Hres Htext Hparse Hkey.
  pose proof (chain_result_is_object _ _ _ _ _ Hres) as Hobj.
  set (w0 := set_calls w (RedisGet (redisKey userId question) :: calls w)).
  assert (Hget : getCachedResponse (cacheKey userId question) w = (Ok JNull, w0)).
  { rewrite (getCachedResponse_reachable _ _ He Hc Hr).
    unfold redisKey in Hmiss. now rewrite Hmiss. }
  assert (Hres0 : fst (processNaturalLanguageQuery question userId userName w0)
                  = Ok result).
  { rewrite <- Hres. now apply pipeline_result_depends_on_store. }
  destruct (pipeline_keeps_world question userId userName w0) as [cs Hw].
  destruct (processNaturalLanguageQuery question userId userName w0)
    as [r wc] eqn:Hchain.
  cbn [fst snd] in Hres0, Hw. subst r wc.
  pose proof (cacheResponse_reachable (cacheKey userId question) result
                (set_calls w0 cs) He Hc Hr) as Hput.
  eexists. split.
  - unfold processQuery, bind. rewrite Hget. cbn [truthy].
    rewrite Hchain, Hput. reflexivity.
  - rewrite <- Hkey.
    apply (hit_on_entry _ question' userId userName (cache_ttl w)
             (JSON_stringify result) result); try assumption.
    cbn [redis entries]. rewrite Hkey. apply assoc_set_same.
Qed.

(** X13.  [processQuery] writes to the cache only a result the query
    chain has just produced, under the key of its own user and question
    and with the configured time to live: after a hit or a failure the
    entries are what they were. *)
Theorem processQuery_writes_own_result_only (w : World)
  (question userId userName : string) :
  let w' := snd (processQuery question userId userName w) in
  entries (redis w') = entries (redis w)
  \/ exists result,
       fst (processNaturalLanguageQuery question userId userName w) = Ok result
       /\ fst (processQuery question userId userName w)
          = Ok (with_fromCache false result)
       /\ entries (redis w')
          = assoc_set (redisKey userId question)
              (cache_ttl w, JSON_stringify result) (entries (redis w)).
Proof.
  cbv zeta. unfold processQuery, bind.
  destruct (getCachedResponse_calls (cacheKey userId question) w)
    as [v [new1 [Hget _]]].
  rewrite Hget. destruct (truthy v); [now left|].
  pose proof (pipeline_result_depends_on_store question userId userName w
                (set_calls w (new1 ++ calls w)%list) eq_refl) as Hres.
  destruct (pipeline_keeps_world question userId userName
              (set_calls w (new1 ++ calls w)%list)) as [cs Hw].
  destruct (processNaturalLanguageQuery question userId userName
              (set_calls w (new1 ++ calls w)%list)) as [[result|e] wc];
    cbn [fst snd] in Hres, Hw; subst wc; [|now left].
  destruct (cacheResponse_effect (cacheKey userId question) result
              (set_calls (set_calls w (new1 ++ calls w)%list) cs))
    as [new2 [_ [Hput | Hput]]]; rewrite Hput; [now left|].
  right. exists result. now repeat split.
Qed.

(** X14.  Whatever the language model returns, the store is only asked
    queries that [injectUserId] returned for the user of the request, and
    the synthesis is only given what the store returned for such a
    query. *)
Theorem store_is_asked_guarded_queries (w : World)
  (question userId userName : string) :
  exists new,
    calls (snd (processQuery question userId userName w))
    = (new ++ calls w)%list
    /\ (forall sq, In (StoreQuery sq) new ->
          exists mq, translate userId question = Ok mq
                     /\ injectUserId mq userId = Ok sq)
    /\ (forall name q data, In (LlmSynthesize name q data) new ->
          exists sq, In (StoreQuery sq) new
                     /\ executeQuery (db w) sq = Ok data).
Proof.
  unfold processQuery, bind.
  destruct (getCachedResponse_calls (cacheKey userId question) w)
    as [v [new1 [Hget Hnew1]]].
  rewrite Hget.
  assert (Hredis1 : forall c, In c new1 ->
            forall P : Prop, (forall key, c = RedisGet key -> P) -> P)
    by (intros c Hc P HP; exact (HP _ (Hnew1 c Hc))).
  destruct (truthy v).
  { exists new1. split; [reflexivity|]. split.
    - intros sq Hin. apply Hnew1 in Hin. discriminate Hin.
    - intros name q data Hin. apply Hnew1 in Hin. discriminate Hin. }
  set (w1 := set_calls w (new1 ++ calls w)%list).
  destruct (chain_calls question userId userName w1)
    as [new2 [Hw [Hstore [Hsyn [Hnoget Hnoset]]]]].
  destruct (processNaturalLanguageQuery question userId userName w1)
    as [[result|e] wc]; cbn [snd] in Hw; subst wc.
  - destruct (cacheResponse_effect (cacheKey userId question) result
                (set_calls w1 (new2 ++ calls w1)%list))
      as [new3 [Hnew3 Hput]].
    exists (new3 ++ new2 ++ new1)%list.
    split; [|split].
    + destruct Hput as [-> | ->]; cbn [snd calls set_calls w1];
        now rewrite !app_assoc.
    + intros sq Hin. apply in_app_or in Hin. destruct Hin as [Hin | Hin].
      { apply Hnew3 in Hin. discriminate Hin. }
      apply in_app_or in Hin. destruct Hin as [Hin | Hin].
      { exact (Hstore sq Hin). }
      apply Hnew1 in Hin. discriminate Hin.
    + intros name q data Hin. apply in_app_or in Hin. destruct Hin as [Hin | Hin].
      { apply Hnew3 in Hin. discriminate Hin. }
      apply in_app_or in Hin. destruct Hin as [Hin | Hin].
      { destruct (Hsyn name q data Hin) as [sq [Hsq Hexec]].
        exists sq. split; [|exact Hexec].
        apply in_or_app. right. apply in_or_app. now left. }
      apply Hnew1 in Hin. discriminate Hin.
  - exists (new2 ++ new1)%list.
    split; [|split].
    + cbn [snd calls set_calls w1]. now rewrite app_assoc.
    + intros sq Hin. apply in_app_or in Hin. destruct Hin as [Hin | Hin].
      { exact (Hstore sq Hin). }
      apply Hnew1 in Hin. discriminate Hin.
    + intros name q data Hin. apply in_app_or in Hin. destruct Hin as [Hin | Hin].
      { destruct (Hsyn name q data Hin) as [sq [Hsq Hexec]].
        exists sq. split; [|exact Hexec]. apply in_or_app. now left. }
      apply Hnew1 in Hin. discriminate Hin.
Qed.

(** ** The router and the test suite *)

Lemma trim_empty_string : JsString.trim EmptyString = EmptyString.
Proof. reflexivity. Qed.

(** X15.  A request that passes the validation reaches [processQuery]
    with the question trimmed, and is answered 200 with its result or 500
    when it throws: the handler itself never throws. *)
Theorem valid_request_reaches_processQuery (q userId userName : string)
  (w : World) :
  JsString.trim q <> EmptyString ->
  String.length q <= 500 ->
  userId <> EmptyString ->
  userName <> EmptyString ->
  post_query (mkRequestBody (JStr q) (Some userId) (Some userName)) w
  = match processQuery (JsString.trim q) userId userName w with
    | (Ok result, w') => (Ok (Reply 200 result), w')
    | (Throw _, w') =>
        (Ok (Reply 500 (JObj [("error", JStr "Query Processing Failed")])), w')
    end.
Proof.
  intros Hq Hlen Hu Hn. unfold post_query.
  cbn [body_question body_userId body_userName truthy missing].
  assert (Hq0 : JsString.is_empty q = false)
    by (destruct q; [now rewrite trim_empty_string in Hq | reflexivity]).
  assert (Hu0 : JsString.is_empty userId = false) by (now destruct userId).
  assert (Hn0 : JsString.is_empty userName = false) by (now destruct userName).
  rewrite Hq0, Hu0, Hn0. cbn [negb orb].
  assert (Ht : (String.length (JsString.trim q) =? 0)%nat = false)
    by (destruct (JsString.trim q); [congruence | reflexivity]).
  assert (H5 : (500 <? String.length q)%nat = false)
    by (apply Nat.ltb_ge; exact Hlen).
  rewrite Ht, H5. unfold try_catch, bind, ret.
  now destruct (processQuery (JsString.trim q) userId userName w) as [[r|e] w'].
Qed.

Lemma fetch_query_rejected (q : string) (w : World) :
  fetch_query q w = (Ok false, w).
Proof.
  unfold fetch_query, try_catch, bind, ret, post_query, TestSuite.request.
  cbn [body_question body_userId body_userName truthy missing].
  now destruct q.
Qed.

Lemma run_each_rejected (tests : list TestSuite.TestQuery)
  (results : TestSuite.Results) (w : World) :
  run_each tests results w
  = (Ok (TestSuite.mkResults (TestSuite.passed results)
           (TestSuite.failed results + List.length tests)), w).
Proof.
  revert results. induction tests as [|test rest IH]; intros results.
  - cbn [run_each List.length]. unfold ret. rewrite Nat.add_0_r.
    now destruct results.
  - cbn [run_each List.length]. unfold bind. rewrite fetch_query_rejected.
    rewrite IH. cbn [TestSuite.count TestSuite.passed TestSuite.failed].
    do 3 f_equal. lia.
Qed.

(** X16.  The requests of the test suite carry a question only, so the
    handler answers each of them 400: whatever the list of tests and the
    state of the world, [runTests] counts no test as passed and every
    test as failed, and nothing is asked of Redis, the language model or
    the store. *)
Theorem test_suite_passes_no_test (tests : list TestSuite.TestQuery)
  (w : World) :
  runTests tests w
  = (Ok (TestSuite.mkResults 0 (List.length tests)), w).
Proof.
  unfold runTests, bind. rewrite run_each_rejected.
  rewrite !fetch_query_rejected. reflexivity.
Qed.

(** ** parseQueryResponse *)

Lemma remove_fences_no_backtick (fence : string) (body rest : string) :
  no_backtick body = true ->
  remove_fences (String "`" fence) 0 (body ++ rest)
  = body ++ remove_fences (String "`" fence) 0 rest.
Proof.
  induction body as [|c body IH]; intros H; [reflexivity|].
  cbn [no_backtick] in H. apply andb_true_iff in H. destruct H as [Hc Hb].
  apply negb_true_iff, Ascii.eqb_neq in Hc.
  cbn [append remove_fences String.prefix].
  destruct (ascii_dec "`" c) as [E | _]; [congruence|].
  now rewrite IH.
Qed.

Lemma remove_fences_clean (fence : string) (body : string) :
  no_backtick body = true ->
  remove_fences (String "`" fence) 0 body = body.
Proof.
  induction body as [|c body IH]; intros H; [reflexivity|].
  cbn [no_backtick] in H. apply andb_true_iff in H. destruct H as [Hc Hb].
  apply negb_true_iff, Ascii.eqb_neq in Hc.
  cbn [remove_fences String.prefix].
  destruct (ascii_dec "`" c) as [E | _]; [congruence|].
  now rewrite IH.
Qed.

Lemma trimEnd_app_space (s : string) (c : ascii) :
  JsString.is_space c = true ->
  JsString.trimEnd (s ++ String c EmptyString) = JsString.trimEnd s.
Proof.
  intros Hc. induction s as [|x s IH]; cbn [append JsString.trimEnd].
  - now rewrite Hc.
  - now rewrite IH.
Qed.

Lemma trim_app_space (s : string) (c : ascii) :
  JsString.is_space c = true ->
  JsString.trim (s ++ String c EmptyString) = JsString.trim s.
Proof.
  intros Hc. unfold JsString.trim.
  induction s as [|x s IH]; cbn [append JsString.trimStart].
  - now rewrite Hc.
  - destruct (JsString.is_space x); [exact IH|].
    exact (trimEnd_app_space (String x s) c Hc).
Qed.

Lemma strip_code_blocks_bare (body : string) :
  no_backtick body = true ->
  strip_code_blocks body = JsString.trim body.
Proof.
  intros H. unfold strip_code_blocks.
  change "```json" with (String "`" "``json").
  rewrite (remove_fences_clean "``json" body H).
  change "```" with (String "`" "``").
  now rewrite (remove_fences_clean "``" body H).
Qed.

(** X17.  A JSON text wrapped in a code block, opened by three backticks
    with or without "json" and closed by three backticks on lines of
    their own, is parsed as the bare text is, for every text without
    backticks. *)
Theorem fenced_answer_parses_as_bare (body : string) :
  no_backtick body = true ->
  parseQueryResponse
    (Message ("```json" ++ String line_feed (body ++ String line_feed "```")))
  = parseQueryResponse (Plain body)
  /\ parseQueryResponse
       (Message ("```" ++ String line_feed (body ++ String line_feed "```")))
     = parseQueryResponse (Plain body).
Proof.
  intros H.
  assert (Hjson : strip_code_blocks
                    ("```json" ++ String line_feed (body ++ String line_feed "```"))
                  = JsString.trim body).
  { unfold strip_code_blocks.
    change (remove_fences "```json" 0
              ("```json" ++ String line_feed (body ++ String line_feed "```")))
      with (remove_fences "```json" 0 (body ++ String line_feed "```")).
    rewrite !remove_fences_no_backtick by assumption.
    change (remove_fences "```" 0
              (remove_fences "```json" 0 (String line_feed "```")))
      with (String line_feed EmptyString).
    now apply trim_app_space. }
  assert (Hplain : strip_code_blocks
                     ("```" ++ String line_feed (body ++ String line_feed "```"))
                   = JsString.trim body).
  { unfold strip_code_blocks.
    change (remove_fences "```json" 0
              ("```" ++ String line_feed (body ++ String line_feed "```")))
      with (String "`" (String "`" (String "`" (String line_feed
              (remove_fences "```json" 0 (body ++ String line_feed "```")))))).
    rewrite remove_fences_no_backtick by assumption.
    change (remove_fences "```json" 0 (String line_feed "```"))
      with (String line_feed "```").
    change (remove_fences "```" 0
              (String "`" (String "`" (String "`" (String line_feed
                 (body ++ String line_feed "```"))))))
      with (remove_fences "```" 0 (body ++ String line_feed "```")).
    rewrite remove_fences_no_backtick by assumption.
    change (remove_fences "```" 0 (String line_feed "```"))
      with (String line_feed EmptyString).
    now apply trim_app_space. }
  set (fenced := "```json" ++ String line_feed (body ++ String line_feed "```"))
    in *.
  set (blocked := "```" ++ String line_feed (body ++ String line_feed "```"))
    in *.
  assert (Hf : JsString.is_empty fenced = false) by reflexivity.
  assert (Hb : JsString.is_empty blocked = false) by reflexivity.
  unfold parseQueryResponse, response_text. rewrite Hf, Hb. cbn [rbind].
  rewrite Hjson, Hplain, (strip_code_blocks_bare _ H). now split.
Qed.

(** X18.  [parseQueryResponse] fails in two ways only: a message whose
    content is empty gives a TypeError, outside the [try]; a text that
    [JSON.parse] rejects after the code blocks are stripped gives the one
    error "Failed to parse query from LLM response", whatever JSON.parse
    threw. *)
Theorem parseQueryResponse_failures (response : LlmResponse) (e : JsError) :
  parseQueryResponse response = Throw e
  <-> (response = Message EmptyString /\ e = TypeError)
      \/ (exists text e',
            response_text response = Ok text
            /\ JSON_parse (strip_code_blocks text) = Throw e'
            /\ e = TranslationError).
Proof.
  unfold parseQueryResponse. split.
  - intros H. destruct (response_text response) as [text|e0] eqn:Ht;
      cbn [rbind] in H.
    + right. exists text.
      destruct (JSON_parse (strip_code_blocks text)) as [v|e'];
        [discriminate H|].
      exists e'. injection H as <-. now repeat split.
    + left. injection H as <-. unfold response_text in Ht.
      destruct response as [content|text]; [|discriminate Ht].
      destruct content; [|discriminate Ht].
      injection Ht as <-. now split.
  - intros [[-> ->] | [text [e' [Ht [Hp ->]]]]]; [reflexivity|].
    rewrite Ht. cbn [rbind]. now rewrite Hp.
Qed.

Lemma injectUserId_throws_type_error (q : QueryDef) (userId : string)
  (e : JsError) :
  injectUserId q userId = Throw e -> e = TypeError.
Proof.
  unfold injectUserId.
  destruct (collection q =? "users"); [discriminate|].
  destruct (operation q =? "aggregate"), (pipeline q) as [p|];
    try (destruct ((operation q =? "find") || (operation q =? "findOne"));
         [destruct (lacksUserId (query q))|]; discriminate).
  destruct (hasUserMatch p) as [h|e'] eqn:Hh; cbn [rbind].
  { destruct (truthy h); discriminate. }
  intros H. injection H as <-.
  unfold hasUserMatch in Hh. destruct p as [|first rest]; [discriminate Hh|].
  cbn [List.length Nat.ltb Nat.leb nth] in Hh.
  destruct (get_prop first "$match") as [m|e1] eqn:Hm; cbn [rbind] in Hh.
  - destruct (truthy m) eqn:Ht; [|discriminate Hh].
    exfalso. exact (get_prop_of_truthy _ _ _ Ht Hh).
  - injection Hh as <-. now apply get_prop_throws in Hm.
Qed.

(** ** Queries outside the contract *)

Lemma injectUserId_keeps_names (q q' : QueryDef) (userId : string) :
  injectUserId q userId = Ok q' ->
  collection q' = collection q /\ operation q' = operation q.
Proof.
  unfold injectUserId.
  destruct (collection q =? "users"); [intros H; injection H as <-; now split|].
  destruct (operation q =? "aggregate"), (pipeline q) as [p|];
    try (destruct ((operation q =? "find") || (operation q =? "findOne"));
         [destruct (lacksUserId (query q))|];
         intros H; injection H as <-; now split).
  destruct (hasUserMatch p) as [h|e]; cbn [rbind]; [|discriminate].
  destruct (truthy h); cbn [negb]; intros H; injection H as <-; now split.
Qed.

Lemma executeQuery_rejects (db : Db) (q : QueryDef) :
  includes allowedCollections (collection q) = false
  \/ includes supportedOperations (operation q) = false ->
  executeQuery db q = Throw (InvalidCollection (collection q))
  \/ executeQuery db q = Throw (UnsupportedOperation (operation q)).
Proof.
  rewrite supported_operation. unfold executeQuery.
  destruct (includes allowedCollections (collection q)); cbn [negb];
    [|now left].
  intros [H | H]; [discriminate H|].
  apply orb_false_iff in H. destruct H as [H Ha].
  apply orb_false_iff in H. destruct H as [Hf Ho].
  rewrite Hf, Ho, Ha. now right.
Qed.

(** X22.  When the language model returns a query on a collection
    outside the allow-list, or with an operation that is not supported,
    the query chain throws after the one call to the model: neither the
    store nor the synthesis is called, and the error is the one of
    [executeQuery], or the TypeError of [injectUserId]. *)
Theorem out_of_contract_query_stops_the_chain (w : World)
  (question userId userName : string) (mq : QueryDef) :
  translate userId question = Ok mq ->
  includes allowedCollections (collection mq) = false
  \/ includes supportedOperations (operation mq) = false ->
  exists e,
    processNaturalLanguageQuery question userId userName w
    = (Throw e, set_calls w (LlmTranslate userId question :: calls w))
    /\ (e = InvalidCollection (collection mq)
        \/ e = UnsupportedOperation (operation mq)
        \/ e = TypeError).
Proof.
  intros Ht Hout.
  unfold processNaturalLanguageQuery, llm_translate, store_execute, bind,
    record_call, lift.
  cbn [set_calls db calls]. rewrite Ht.
  destruct (injectUserId mq userId) as [sq|e] eqn:Hi.
  - destruct (injectUserId_keeps_names _ _ _ Hi) as [Hc Ho].
    rewrite <- Hc, <- Ho in Hout.
    destruct (executeQuery_rejects (db w) sq Hout) as [-> | ->].
    + exists (InvalidCollection (collection sq)).
      split; [reflexivity | left; now rewrite Hc].
    + exists (UnsupportedOperation (operation sq)).
      split; [reflexivity | right; left; now rewrite Ho].
  - exists e. split; [reflexivity|]. right. right.
    now apply injectUserId_throws_type_error in Hi.
Qed.

End Backend.

(** ** The cache key *)

Lemma toLowerCase_app (a b : string) :
  JsString.toLowerCase (a ++ b)
  = JsString.toLowerCase a ++ JsString.toLowerCase b.
Proof.
  induction a as [|c a IH]; simpl; [reflexivity | now rewrite IH].
Qed.

Lemma is_empty_app_cons (a : string) (c : ascii) (r : string) :
  JsString.is_empty (a ++ String c r) = false.
Proof.
  now destruct a.
Qed.

Lemma trimStart_app_nonspace (a : string) (c : ascii) (r : string) :
  JsString.is_space c = false ->
  JsString.trimStart (a ++ String c r) = JsString.trimStart a ++ String c r.
Proof.
  intros Hc. induction a as [|x a IH]; simpl.
  - now rewrite Hc.
  - destruct (JsString.is_space x); [exact IH | reflexivity].
Qed.

Lemma trimEnd_app_nonspace (a : string) (c : ascii) (r : string) :
  JsString.is_space c = false ->
  JsString.trimEnd (a ++ String c r) = a ++ String c (JsString.trimEnd r).
Proof.
  intros Hc. induction a as [|x a IH]; simpl.
  - now rewrite Hc.
  - rewrite IH, is_empty_app_cons. now rewrite andb_false_r.
Qed.

Lemma collapse_from_app_nonspace (b : bool) (a : string) (c : ascii) (r : string) :
  JsString.is_space c = false ->
  JsString.collapse_from b (a ++ String c r)
  = JsString.collapse_from b a ++ String c (JsString.collapse_from false r).
Proof.
  intros Hc. revert b. induction a as [|x a IH]; intros b; simpl.
  - now rewrite Hc.
  - destruct (JsString.is_space x).
    + destruct b; simpl; now rewrite IH.
    + simpl. now rewrite IH.
Qed.

(** The text that is hashed: the user id and the question are normalised
    on their own side of the colon. *)
Lemma normalize_cacheKey (userId question : string) :
  normalized (cacheKey userId question)
  = normalize_id userId ++ String ":" (normalize_question question).
Proof.
  unfold normalized, cacheKey, normalize_id, normalize_question,
    JsString.trim, JsString.collapse_spaces.
  rewrite toLowerCase_app.
  change (JsString.toLowerCase (":" ++ question))
    with (String ":" (JsString.toLowerCase question)).
  rewrite trimStart_app_nonspace by reflexivity.
  rewrite trimEnd_app_nonspace by reflexivity.
  now rewrite collapse_from_app_nonspace by reflexivity.
Qed.

Lemma string_length_app (a b : string) :
  String.length (a ++ b) = String.length a + String.length b.
Proof.
  induction a as [|c a IH]; simpl; [reflexivity | now rewrite IH].
Qed.

Lemma string_app_inv_tail (a b r : string) : a ++ r = b ++ r -> a = b.
Proof.
  revert b. induction a as [|x a IH]; intros [|y b] H; simpl in H.
  - reflexivity.
  - apply (f_equal String.length) in H. simpl in H.
    rewrite string_length_app in H. lia.
  - apply (f_equal String.length) in H. simpl in H.
    rewrite string_length_app in H. lia.
  - injection H as -> H. f_equal. exact (IH _ H).
Qed.

Lemma string_app_inv_head (p a b : string) : p ++ a = p ++ b -> a = b.
Proof.
  induction p as [|c p IH]; simpl; intros H; [exact H|].
  injection H as H. exact (IH H).
Qed.

(** A user id in lower case and without white space, such as the UUIDs of
    seed.js, is hashed as it is. *)
Lemma normalize_id_plain (t : string) :
  (forall c, In c (list_ascii_of_string t) ->
             JsString.is_space c = false /\ JsString.lower_char c = c) ->
  normalize_id t = t.
Proof.
  unfold normalize_id, JsString.collapse_spaces.
  induction t as [|c t IH]; intros H; [reflexivity|].
  destruct (H c (or_introl eq_refl)) as [Hs Hl].
  cbn [JsString.toLowerCase JsString.trimStart]. rewrite Hl, Hs.
  cbn [JsString.collapse_from]. rewrite Hs. f_equal.
  assert (Ht : forall c', In c' (list_ascii_of_string t) ->
                 JsString.is_space c' = false /\ JsString.lower_char c' = c')
    by (intros c' Hc'; apply H; now right).
  clear IH H. induction t as [|x t IH]; [reflexivity|].
  destruct (Ht x (or_introl eq_refl)) as [Hxs Hxl].
  cbn [JsString.toLowerCase JsString.collapse_from]. rewrite Hxl, Hxs. f_equal.
  apply IH. intros c' Hc'. apply Ht. now right.
Qed.

(** User ids that are still different after the normalisation give
    different texts to hash. *)
Lemma distinct_ids_distinct_texts (t1 t2 q : string) :
  normalize_id t1 <> normalize_id t2 ->
  normalized (cacheKey t1 q) <> normalized (cacheKey t2 q).
Proof.
  intros Hne. rewrite !normalize_cacheKey. intros H.
  apply Hne. exact (string_app_inv_tail _ _ _ H).
Qed.

(** C5, as the code has it.  The key is "query:" followed by the MD5
    digest of the normalised user id, a colon, and the question in lower
    case with trailing white space removed and runs of white space
    collapsed; punctuation stays.  So for every user the question
    "  How Much did I Spend  on Food?", trimmed as the route passes it on,
    has the key of "how much did i spend on food?". *)
Theorem cache_key_is_normalized (t : string) :
  (forall q,
     redisKey t q
     = "query:" ++ MD5.md5_hex (normalize_id t ++ ":" ++ normalize_question q))
  /\ redisKey t (JsString.trim "  How Much did I Spend  on Food?")
     = redisKey t "how much did i spend on food?".
Proof.
  assert (Hkey : forall q,
     redisKey t q
     = "query:" ++ MD5.md5_hex (normalize_id t ++ ":" ++ normalize_question q)).
  { intros q. unfold redisKey, generateCacheKey.
    now rewrite normalize_cacheKey. }
  split; [exact Hkey|].
  rewrite !Hkey.
  assert (Hq : normalize_question (JsString.trim "  How Much did I Spend  on Food?")
               = normalize_question "how much did i spend on food?")
    by (vm_compute; reflexivity).
  now rewrite Hq.
Qed.

(** ** The normalisation behind the cache key *)

Lemma lower_char_idem (c : ascii) :
  JsString.lower_char (JsString.lower_char c) = JsString.lower_char c.
Proof.
  destruct c as [[] [] [] [] [] [] [] []]; vm_compute; reflexivity.
Qed.

Lemma is_space_lower_char (c : ascii) :
  JsString.is_space (JsString.lower_char c) = JsString.is_space c.
Proof.
  destruct c as [[] [] [] [] [] [] [] []]; vm_compute; reflexivity.
Qed.

Lemma toLowerCase_idem (s : string) :
  JsString.toLowerCase (JsString.toLowerCase s) = JsString.toLowerCase s.
Proof.
  induction s as [|c s IH]; cbn [JsString.toLowerCase]; [reflexivity|].
  now rewrite lower_char_idem, IH.
Qed.

Lemma toLowerCase_trimStart (s : string) :
  JsString.toLowerCase (JsString.trimStart s)
  = JsString.trimStart (JsString.toLowerCase s).
Proof.
  induction s as [|c s IH]; cbn [JsString.toLowerCase JsString.trimStart];
    [reflexivity|].
  rewrite is_space_lower_char.
  destruct (JsString.is_space c); [exact IH | reflexivity].
Qed.

Lemma is_empty_toLowerCase (s : string) :
  JsString.is_empty (JsString.toLowerCase s) = JsString.is_empty s.
Proof. now destruct s. Qed.

Lemma toLowerCase_trimEnd (s : string) :
  JsString.toLowerCase (JsString.trimEnd s)
  = JsString.trimEnd (JsString.toLowerCase s).
Proof.
  induction s as [|c s IH]; cbn [JsString.toLowerCase JsString.trimEnd];
    [reflexivity|].
  rewrite is_space_lower_char, <- IH, is_empty_toLowerCase.
  now destruct (JsString.is_space c && JsString.is_empty (JsString.trimEnd s)).
Qed.

Lemma toLowerCase_collapse (b : bool) (s : string) :
  JsString.toLowerCase (JsString.collapse_from b s)
  = JsString.collapse_from b (JsString.toLowerCase s).
Proof.
  revert b. induction s as [|c s IH]; intros b;
    cbn [JsString.toLowerCase JsString.collapse_from]; [reflexivity|].
  rewrite is_space_lower_char.
  destruct (JsString.is_space c).
  - destruct b; cbn [JsString.toLowerCase]; now rewrite IH.
  - cbn [JsString.toLowerCase]. now rewrite IH.
Qed.

Lemma trimStart_idem (s : string) :
  JsString.trimStart (JsString.trimStart s) = JsString.trimStart s.
Proof.
  induction s as [|c s IH]; cbn [JsString.trimStart]; [reflexivity|].
  destruct (JsString.is_space c) eqn:E; [exact IH|].
  cbn [JsString.trimStart]. now rewrite E.
Qed.

Lemma trimEnd_idem (s : string) :
  JsString.trimEnd (JsString.trimEnd s) = JsString.trimEnd s.
Proof.
  induction s as [|c s IH]; cbn [JsString.trimEnd]; [reflexivity|].
  destruct (JsString.is_space c && JsString.is_empty (JsString.trimEnd s)) eqn:E;
    [reflexivity|].
  cbn [JsString.trimEnd]. now rewrite IH, E.
Qed.

Lemma trimStart_trimEnd (s : string) :
  JsString.trimStart (JsString.trimEnd s)
  = JsString.trimEnd (JsString.trimStart s).
Proof.
  induction s as [|c s IH]; cbn [JsString.trimStart JsString.trimEnd];
    [reflexivity|].
  destruct (JsString.is_space c) eqn:Hc; cbn [andb].
  - destruct (JsString.trimEnd s) as [|x r] eqn:Ht; cbn [JsString.is_empty].
    + now rewrite <- IH.
    + cbn [JsString.trimStart]. rewrite Hc. exact IH.
  - cbn [JsString.trimStart JsString.trimEnd andb]. now rewrite Hc.
Qed.

Lemma trim_idem (s : string) :
  JsString.trim (JsString.trim s) = JsString.trim s.
Proof.
  unfold JsString.trim.
  now rewrite trimStart_trimEnd, trimStart_idem, trimEnd_idem.
Qed.

Lemma trimStart_collapse (b : bool) (s : string) :
  JsString.trimStart (JsString.collapse_from b s)
  = JsString.collapse_from false (JsString.trimStart s).
Proof.
  revert b. induction s as [|c s IH]; intros b;
    cbn [JsString.collapse_from JsString.trimStart]; [reflexivity|].
  destruct (JsString.is_space c) eqn:Hc.
  - destruct b; [apply IH|]. cbn [JsString.trimStart].
    change (JsString.is_space " ") with true. cbn iota. apply IH.
  - cbn [JsString.trimStart JsString.collapse_from]. now rewrite Hc.
Qed.

Lemma collapse_empty (b : bool) (s : string) :
  JsString.is_empty (JsString.collapse_from b s) = true ->
  JsString.trimEnd s = EmptyString.
Proof.
  revert b. induction s as [|c s IH]; intros b;
    cbn [JsString.collapse_from JsString.trimEnd]; [reflexivity|].
  destruct (JsString.is_space c); [|discriminate].
  destruct b; [|discriminate].
  intros H. now rewrite (IH _ H).
Qed.

Lemma trimEnd_collapse (b : bool) (s : string) :
  JsString.trimEnd (JsString.collapse_from b s)
  = JsString.collapse_from b (JsString.trimEnd s).
Proof.
  revert b. induction s as [|c s IH]; intros b;
    cbn [JsString.collapse_from JsString.trimEnd]; [reflexivity|].
  destruct (JsString.is_space c) eqn:Hc; cbn [andb].
  - destruct (JsString.trimEnd s) as [|x r] eqn:Ht; cbn [JsString.is_empty].
    + destruct b.
      * rewrite IH. reflexivity.
      * cbn [JsString.trimEnd]. rewrite IH. reflexivity.
    + destruct b.
      * rewrite IH. cbn [JsString.collapse_from]. now rewrite Hc.
      * cbn [JsString.trimEnd]. rewrite IH.
        change (JsString.is_space " ") with true. cbn [andb].
        destruct (JsString.is_empty (JsString.collapse_from true (String x r)))
          eqn:He.
        { apply collapse_empty in He. rewrite <- Ht, trimEnd_idem, Ht in He.
          discriminate He. }
        cbn [JsString.collapse_from]. now rewrite Hc.
  - cbn [JsString.trimEnd JsString.collapse_from andb]. rewrite Hc.
    cbn [andb]. now rewrite IH.
Qed.

Lemma collapse_idem (b : bool) (s : string) :
  JsString.collapse_from b (JsString.collapse_from b s)
  = JsString.collapse_from b s.
Proof.
  revert b. induction s as [|c s IH]; intros b;
    cbn [JsString.collapse_from]; [reflexivity|].
  destruct (JsString.is_space c) eqn:Hc.
  - destruct b; [apply IH|].
    cbn [JsString.collapse_from]. change (JsString.is_space " ") with true.
    cbn iota. now rewrite IH.
  - cbn [JsString.collapse_from]. now rewrite Hc, IH.
Qed.

Lemma trim_collapse (s : string) :
  JsString.trim (JsString.collapse_spaces s)
  = JsString.collapse_spaces (JsString.trim s).
Proof.
  unfold JsString.trim, JsString.collapse_spaces.
  now rewrite trimStart_collapse, trimEnd_collapse.
Qed.

Lemma toLowerCase_trim (s : string) :
  JsString.toLowerCase (JsString.trim s)
  = JsString.trim (JsString.toLowerCase s).
Proof.
  unfold JsString.trim. now rewrite toLowerCase_trimEnd, toLowerCase_trimStart.
Qed.

(** X19.  The normalisation of [generateCacheKey] is idempotent, and
    the key of a question does not change when the question is put in
    lower case, trimmed, has its runs of white space collapsed, or is
    normalised beforehand. *)
Theorem generateCacheKey_ignores_case_and_spacing (question : string) :
  normalized (normalized question) = normalized question
  /\ generateCacheKey (JsString.toLowerCase question) = generateCacheKey question
  /\ generateCacheKey (JsString.trim question) = generateCacheKey question
  /\ generateCacheKey (JsString.collapse_spaces question)
     = generateCacheKey question
  /\ generateCacheKey (normalized question) = generateCacheKey question.
Proof.
  assert (Hidem : normalized (normalized question) = normalized question).
  { unfold normalized, JsString.collapse_spaces.
    rewrite toLowerCase_collapse, toLowerCase_trim, toLowerCase_idem.
    fold (JsString.collapse_spaces
            (JsString.trim (JsString.toLowerCase question))).
    rewrite trim_collapse, trim_idem.
    unfold JsString.collapse_spaces. apply collapse_idem. }
  split; [exact Hidem|]. unfold generateCacheKey. repeat split.
  - unfold normalized. now rewrite toLowerCase_idem.
  - unfold normalized. now rewrite toLowerCase_trim, trim_idem.
  - unfold normalized, JsString.collapse_spaces.
    rewrite toLowerCase_collapse.
    fold (JsString.collapse_spaces (JsString.toLowerCase question)).
    rewrite trim_collapse. unfold JsString.collapse_spaces.
    now rewrite collapse_idem.
  - now rewrite Hidem.
Qed.

(** ** The form of the key *)

Lemma le_bytes_range (n : nat) (x b : Z) :
  In b (MD5.le_bytes n x) -> (0 <= b < 256)%Z.
Proof.
  unfold MD5.le_bytes. intros H. apply in_map_iff in H.
  destruct H as [i [<- _]].
  change 255%Z with (Z.ones 8). rewrite Z.land_ones by lia.
  apply Z.mod_pos_bound. lia.
Qed.

Lemma le_bytes_length (n : nat) (x : Z) : List.length (MD5.le_bytes n x) = n.
Proof.
  unfold MD5.le_bytes. now rewrite length_map, length_seq.
Qed.

Lemma hex_digit_in_alphabet (n : Z) :
  (0 <= n < 16)%Z ->
  In (MD5.hex_digit n) (list_ascii_of_string "0123456789abcdef").
Proof.
  intros H.
  assert (Hall : forallb
                   (fun i => existsb (Ascii.eqb (MD5.hex_digit (Z.of_nat i)))
                               (list_ascii_of_string "0123456789abcdef"))
                   (seq 0 16) = true) by (vm_compute; reflexivity).
  rewrite forallb_forall in Hall.
  specialize (Hall (Z.to_nat n)).
  rewrite Z2Nat.id in Hall by lia.
  assert (Hin : In (Z.to_nat n) (seq 0 16)) by (apply in_seq; lia).
  apply Hall, existsb_exists in Hin.
  destruct Hin as [c [Hc E]]. apply Ascii.eqb_eq in E. now subst c.
Qed.

Lemma hex_form (bs : list Z) :
  (forall b, In b bs -> (0 <= b < 256)%Z) ->
  String.length (MD5.hex bs) = 2 * List.length bs
  /\ forall c, In c (list_ascii_of_string (MD5.hex bs)) ->
               In c (list_ascii_of_string "0123456789abcdef").
Proof.
  induction bs as [|b bs IH]; intros Hb.
  - split; [reflexivity | intros c []].
  - destruct IH as [Hlen Hchars]; [intros x Hx; apply Hb; now right|].
    assert (Hb0 : (0 <= b < 256)%Z) by (apply Hb; now left).
    cbn [MD5.hex String.length List.length list_ascii_of_string].
    split; [rewrite Hlen; lia|].
    intros c [<- | [<- | Hc]].
    + apply hex_digit_in_alphabet. rewrite Z.shiftr_div_pow2 by lia.
      change (2 ^ 4)%Z with 16%Z.
      split; [apply Z.div_pos; lia | apply Z.div_lt_upper_bound; lia].
    + apply hex_digit_in_alphabet. change 15%Z with (Z.ones 4).
      rewrite Z.land_ones by lia. apply Z.mod_pos_bound. lia.
    + now apply Hchars.
Qed.

(** X20.  Every key is "query:" followed by 32 characters out of
    0-9 and a-f, whatever the question: 38 characters in all. *)
Theorem generateCacheKey_format (question : string) :
  exists digest,
    generateCacheKey question = "query:" ++ digest
    /\ String.length digest = 32
    /\ (forall c, In c (list_ascii_of_string digest) ->
                  In c (list_ascii_of_string "0123456789abcdef"))
    /\ String.length (generateCacheKey question) = 38.
Proof.
  exists (MD5.md5_hex (normalized question)).
  split; [reflexivity|].
  unfold MD5.md5_hex, MD5.digest.
  set (st := MD5.blocks _ _ _).
  destruct (hex_form (MD5.le_bytes 4 (MD5.rA st) ++ MD5.le_bytes 4 (MD5.rB st)
                      ++ MD5.le_bytes 4 (MD5.rC st) ++ MD5.le_bytes 4 (MD5.rD st))%list)
    as [Hlen Hchars].
  { intros b Hb. repeat (apply in_app_or in Hb; destruct Hb as [Hb | Hb]);
      exact (le_bytes_range _ _ _ Hb). }
  rewrite !length_app, !le_bytes_length in Hlen.
  split; [exact Hlen|]. split; [exact Hchars|].
  unfold generateCacheKey, MD5.md5_hex, MD5.digest. fold st.
  cbn [append String.length]. rewrite Hlen. reflexivity.
Qed.

(** ** reconnectStrategy *)

(** X21.  The Redis client gives up exactly after the tenth retry; until
    then it waits 100 ms for each retry made, one second at most, so that
    the limit of 3000 ms is never reached and the wait grows linearly. *)
Theorem reconnectStrategy_waits_linearly (retries : Z) :
  (0 <= retries)%Z ->
  (reconnectStrategy retries = GiveUp <-> (10 < retries)%Z)
  /\ forall ms, reconnectStrategy retries = RetryAfter ms ->
               (ms = 100 * retries /\ 0 <= ms <= 1000)%Z.
Proof.
  intros H0. unfold reconnectStrategy.
  destruct (10 <? retries)%Z eqn:E.
  - apply Z.ltb_lt in E. split; [tauto | discriminate].
  - apply Z.ltb_ge in E. split.
    + split; [discriminate | lia].
    + intros ms Hms. injection Hms as <-. lia.
Qed.

(** ** The model on the fixture store *)

Section OnFixture.

Import Fixture.

Local Abbreviation execute := (executeQuery no_operator keep_fields no_stage).

Local Abbreviation run_post_query :=
  (post_query no_operator keep_fields no_stage translate_food answer_food
     parse_nothing stringify_nothing).

Example md5_empty : MD5.md5_hex "" = "d41d8cd98f00b204e9800998ecf8427e".
Proof. vm_compute. reflexivity. Qed.

Example md5_abc : MD5.md5_hex "abc" = "900150983cd24fb0d6963f7d28e17f72".
Proof. vm_compute. reflexivity. Qed.

Example md5_fox :
  MD5.md5_hex "The quick brown fox jumps over the lazy dog"
  = "9e107d9d372bb6826bd81d3542a419d6".
Proof. vm_compute. reflexivity. Qed.

Example unfiltered_find_returns_own_food :
  exists q', injectUserId unfiltered_find user1Id = Ok q'
             /\ execute store q' = Ok (Rows [swiggy]).
Proof. eexists. split; reflexivity. Qed.

Example valid_request_is_processed :
  exists body w',
    run_post_query
      (mkRequestBody (JStr " How much did I spend on food? ")
         (Some user1Id) (Some "Rahul Sharma"))
      world_without_cache = (Ok (Reply 200 body), w')
    /\ List.length (calls w') = 3.
Proof. eexists. eexists. split; reflexivity. Qed.

Example repeated_question_is_served_from_cache :
  exists first w1 second w2,
    processQuery no_operator keep_fields no_stage translate_food answer_food
      parse_saved stringify_saved "How much did I spend on food?" user1Id
      "Rahul Sharma" world_with_cache = (Ok first, w1)
    /\ get_prop first "fromCache" = Ok (JBool false)
    /\ processQuery no_operator keep_fields no_stage translate_food answer_food
         parse_saved stringify_saved "how much did I spend  on food?" user1Id
         "Rahul Sharma" w1 = (Ok second, w2)
    /\ get_prop second "fromCache" = Ok (JBool true)
    /\ List.length (calls w2) = 6.
Proof.
  eexists. eexists. eexists. eexists.
  split; [vm_compute; reflexivity|]. split; [reflexivity|].
  split; [vm_compute; reflexivity|]. split; reflexivity.
Qed.


(** C2 fails on the same query: the filter keeps the [user_id] it came
    with. *)
Lemma foreign_filter_is_kept :
  operation foreign_find = "find"
  /\ exists q', injectUserId foreign_find user1Id = Ok q'
                /\ option_map (lookup "user_id") (query q') = Some (JStr user2Id)
                /\ JStr user2Id <> JStr user1Id.
Proof.
  split; [reflexivity|]. eexists. repeat split; try reflexivity. discriminate.
Qed.

(** C3 fails on a pipeline whose first stage matches another user: no
    stage is put in front of it. *)
Lemma foreign_match_stage_is_kept :
  operation foreign_aggregate = "aggregate"
  /\ exists q', injectUserId foreign_aggregate user1Id = Ok q'
                /\ option_map (hd JNull) (pipeline q') = Some (userMatchStage user2Id)
                /\ userMatchStage user2Id <> userMatchStage user1Id.
Proof.
  split; [reflexivity|]. eexists. repeat split; try reflexivity. discriminate.
Qed.

(** C7 fails on a query whose collection and operation are both unknown:
    the operation is not a supported one, and the error is the one of the
    collection. *)
Lemma unknown_operation_on_unknown_collection :
  includes supportedOperations (operation drop_stocks) = false
  /\ execute store drop_stocks = Throw (InvalidCollection "stocks").
Proof. split; reflexivity. Qed.

(** C4 fails on user ids that differ in case only: [processQuery] builds
    the "user-specific cache key" from the user id, and [generateCacheKey]
    puts the whole text in lower case before it is hashed, so both ids
    get one key. *)
Lemma user_ids_differing_in_case_share_key :
  "User-1" <> "user-1"
  /\ redisKey "User-1" "how much did i spend on food?"
     = redisKey "user-1" "how much did i spend on food?".
Proof. split; [discriminate | vm_compute; reflexivity]. Qed.

(** With one key for both, the answer cached for "user-1" is what
    [processQuery] returns to "User-1": a hit, with nothing asked of the
    language model or the store. *)
Example cached_answer_is_served_to_other_id :
  exists w',
    processQuery no_operator keep_fields no_stage translate_food answer_food
      parse_food stringify_saved "How much did I spend on food?" "User-1"
      "Someone else" world_with_entry
    = (Ok (with_fromCache true food_response), w')
    /\ get_prop food_response "user"
       = Ok (JObj [("id", JStr user1Id); ("name", JStr "Rahul Sharma")])
    /\ calls w' = [RedisGet (redisKey user1Id "How much did I spend on food?")].
Proof.
  eexists. split; [vm_compute; reflexivity|]. split; reflexivity.
Qed.

(** The user filter in front does not bind a later stage: with a driver
    that runs [$unionWith], the pipeline that [injectUserId] returns for
    user 1 starts from the documents of user 1 and then adds every
    document of the collection, those of user 2 among them. *)
Example later_stage_reads_foreign_rows :
  exists q',
    injectUserId union_aggregate user1Id = Ok q'
    /\ option_map (hd JNull) (pipeline q') = Some (userMatchStage user1Id)
    /\ executeQuery no_operator keep_fields union_with store q'
       = Ok (Rows [swiggy; makemytrip; swiggy; makemytrip; zomato; flipkart])
    /\ lookup "user_id" zomato = JStr user2Id.
Proof. eexists. repeat split; reflexivity. Qed.

(** Answers of the model that parse and are no query definition: an
    object or a number for a pipeline cannot be spread, and a text for a
    filter is spread into its characters. *)
Example parsed_values_outside_the_shape :
  Parsed.injectUserId no_coercion JNull user1Id = Throw TypeError
  /\ Parsed.injectUserId no_coercion object_pipeline user1Id = Throw TypeError
  /\ Parsed.injectUserId no_coercion number_pipeline user1Id = Throw TypeError
  /\ Parsed.injectUserId no_coercion text_filter user1Id
     = Ok (JObj [("collection", JStr "bank_transactions");
                 ("operation", JStr "find");
                 ("query", JObj [("0", JStr "a"); ("1", JStr "b");
                                 ("user_id", JStr user1Id)])]).
Proof. repeat split; reflexivity. Qed.

(** A pipeline that begins with [null] makes [injectUserId] throw. *)
Example null_stage_throws :
  injectUserId null_aggregate user1Id = Throw TypeError.
Proof. reflexivity. Qed.

(** C5 fails on the two questions it names, also when the route has
    trimmed them: the question mark is hashed, and so is the space that
    is left of leading white space. *)
Lemma question_mark_changes_key :
  redisKey "user-1" "  How Much did I Spend  on Food?"
  <> redisKey "user-1" "how much did i spend on food"
  /\ redisKey "user-1" (JsString.trim "  How Much did I Spend  on Food?")
     <> redisKey "user-1" (JsString.trim "how much did i spend on food").
Proof. split; vm_compute; discriminate. Qed.

Lemma injectUserId_users_unchanged_witness :
  collection list_users = "users"
  /\ injectUserId list_users user1Id = Ok list_users.
Proof.
  split; [reflexivity|].
  apply (injectUserId_users_unchanged list_users user1Id). reflexivity.
Defined.

Lemma injectUserId_find_filter_witness :
  exists filter,
    injectUserId unfiltered_find user1Id = Ok (set_query unfiltered_find filter)
    /\ lookup "user_id" filter = JStr user1Id
    /\ lookup "category" filter = JStr "food".
Proof.
  destruct (injectUserId_find_filter unfiltered_find user1Id)
    as [Hadd _]; [reflexivity | left; reflexivity |].
  destruct (Hadd eq_refl) as [filter [Hq [Hid Hother]]].
  exists filter. split; [exact Hq|]. split; [exact Hid|].
  rewrite Hother; [reflexivity | discriminate].
Defined.

Lemma injectUserId_aggregate_pipeline_witness :
  injectUserId food_aggregate user1Id
  = Ok (set_pipeline food_aggregate [userMatchStage user1Id; food_stage]).
Proof.
  pose proof (injectUserId_aggregate_pipeline food_aggregate user1Id
                [food_stage] eq_refl eq_refl eq_refl) as [m [Hm [_ Hkept]]].
  cbn in Hm. injection Hm as <-.
  destruct (Hkept eq_refl) as [v [Hv Hq]].
  cbn in Hv. injection Hv as <-. exact Hq.
Defined.

Lemma aggregate_without_pipeline_witness :
  injectUserId bare_aggregate user1Id = Ok bare_aggregate
  /\ execute store bare_aggregate = Ok (Rows [swiggy; makemytrip; zomato; flipkart]).
Proof.
  apply (aggregate_without_pipeline no_operator keep_fields no_stage
           store bare_aggregate user1Id); reflexivity.
Defined.


Lemma cache_fails_open_witness :
  responding (redis world_unreachable) = false
  /\ exists executed value,
       describes executed (food_query user1Id)
       /\ fst (processQuery no_operator keep_fields no_stage translate_food
                 answer_food parse_nothing stringify_nothing
                 "How much did I spend on food?" user1Id "Rahul Sharma"
                 world_unreachable)
          = Ok (JObj [("question", JStr "How much did I spend on food?");
                      ("user", JObj [("id", JStr user1Id);
                                     ("name", JStr "Rahul Sharma")]);
                      ("answer", JStr "You spent 2500 on food.");
                      ("queryExecuted", executed);
                      ("dataRetrieved", JArr [JObj swiggy]);
                      ("fromCache", JBool false)])
       /\ calls (snd (processQuery no_operator keep_fields no_stage
                        translate_food answer_food parse_nothing
                        stringify_nothing "How much did I spend on food?"
                        user1Id "Rahul Sharma" world_unreachable))
          = [RedisSetEx (redisKey user1Id "How much did I spend on food?")
               3600 value;
             LlmSynthesize "Rahul Sharma" "How much did I spend on food?"
               (Rows [swiggy]);
             StoreQuery (food_query user1Id);
             LlmTranslate user1Id "How much did I spend on food?";
             RedisGet (redisKey user1Id "How much did I spend on food?")].
Proof.
  split; [reflexivity|].
  destruct (cache_fails_open no_operator keep_fields no_stage translate_food
              answer_food parse_nothing stringify_nothing world_unreachable
              "How much did I spend on food?" user1Id "Rahul Sharma")
    as [_ [_ [Hrun _]]]; [right; right; reflexivity|].
  destruct (Hrun (food_query user1Id) (food_query user1Id) (Rows [swiggy])
              "You spent 2500 on food." eq_refl eq_refl eq_refl eq_refl)
    as [executed [Hd [Hq [_ Hcalls]]]].
  exists executed. eexists. split; [exact Hd|]. split; [exact Hq | exact Hcalls].
Defined.

Lemma invalid_request_rejected_witness :
  exists message,
    run_post_query (mkRequestBody (JStr "   ") (Some user1Id) (Some "Rahul Sharma"))
      world_without_cache
    = (Ok (bad_request message), world_without_cache)
    /\ status_of (bad_request message) = 400
    /\ calls (snd (run_post_query
                     (mkRequestBody (JStr "   ") (Some user1Id)
                        (Some "Rahul Sharma"))
                     world_without_cache)) = [].
Proof.
  apply (invalid_request_rejected no_operator keep_fields no_stage
           translate_food answer_food parse_nothing stringify_nothing).
  right. right. left. exists "   ". split; reflexivity.
Defined.

Lemma injectUserId_on_described_witness :
  describes reordered_find unfiltered_find
  /\ exists v',
       Parsed.injectUserId no_coercion reordered_find user1Id = Ok v'
       /\ describes v'
            (set_query unfiltered_find
               [("category", JStr "food"); ("user_id", JStr user1Id)]).
Proof.
  assert (Hd : describes reordered_find unfiltered_find).
  { eexists. split; [reflexivity|]. cbn. repeat split; auto. }
  split; [exact Hd|].
  exact (injectUserId_on_described no_coercion reordered_find unfiltered_find
           user1Id Hd).
Defined.

Lemma injectUserId_idempotent_witness :
  exists q',
    injectUserId empty_aggregate user1Id = Ok q'
    /\ injectUserId q' user1Id = Ok q'.
Proof.
  exists (set_pipeline empty_aggregate [userMatchStage user1Id]).
  split; [reflexivity|].
  apply (injectUserId_idempotent empty_aggregate); [discriminate | reflexivity].
Defined.

Lemma injectUserId_only_adds_witness :
  operation (set_query unfiltered_find
               [("category", JStr "food"); ("user_id", JStr user1Id)])
  = operation unfiltered_find.
Proof.
  destruct (injectUserId_only_adds unfiltered_find
              (set_query unfiltered_find
                 [("category", JStr "food"); ("user_id", JStr user1Id)])
              user1Id eq_refl) as [_ [Hop _]].
  exact Hop.
Defined.

Lemma injected_find_selects_own_share_witness :
  exists q' selected,
    injectUserId unfiltered_find user1Id = Ok q'
    /\ execute store unfiltered_find
       = Ok (Rows (map (project keep_fields None) selected))
    /\ execute store q'
       = Ok (Rows (map (project keep_fields None)
                     (List.filter (owned_by user1Id) selected))).
Proof.
  apply (injected_find_selects_own_share no_operator keep_fields no_stage
           store unfiltered_find user1Id); try reflexivity.
  intros v H. cbn in H. destruct H as [H | []]. discriminate H.
Defined.

Lemma cached_response_round_trip_witness :
  fst (getCachedResponse parse_saved "  how much did I SPEND on food? "
         (snd (cacheResponse stringify_saved "How much did I spend on food?"
                 saved_response world_with_cache)))
  = Ok saved_response.
Proof.
  apply (cached_response_round_trip parse_saved stringify_saved);
    [reflexivity | reflexivity | reflexivity | vm_compute; reflexivity
    | discriminate | reflexivity].
Defined.

Lemma cacheResponse_keeps_other_questions_witness :
  fst (getCachedResponse parse_saved "What are my travel expenses?"
         (snd (cacheResponse stringify_saved "How much did I spend on food?"
                 saved_response world_with_entry)))
  = fst (getCachedResponse parse_saved "What are my travel expenses?"
           world_with_entry).
Proof.
  apply (cacheResponse_keeps_other_questions parse_saved stringify_saved).
  intros H. vm_compute in H. discriminate H.
Defined.

Lemma stats_after_invalidation_witness :
  getCacheStats prefix_glob no_message
    (set_redis world_with_entry
       (snd (invalidateCache prefix_glob None (redis world_with_entry))))
  = JObj [("connected", JBool true); ("cachedQueries", JNum 0);
          ("ttl", JNum 3600)].
Proof.
  apply (stats_after_invalidation prefix_glob no_message world_with_entry);
    reflexivity.
Defined.

Lemma no_hit_after_invalidation_witness :
  fst (getCachedResponse parse_saved
         (cacheKey user1Id "How much did I spend on food?")
         (set_redis world_with_entry
            (snd (invalidateCache prefix_glob None (redis world_with_entry)))))
  = Ok JNull.
Proof.
  apply (no_hit_after_invalidation parse_saved prefix_glob world_with_entry).
  intros rest. destruct rest; reflexivity.
Defined.

Lemma cache_hit_skips_the_chain_witness :
  processQuery no_operator keep_fields no_stage translate_food answer_food
    parse_saved stringify_saved "How much did I spend on food?" user1Id
    "Rahul Sharma" world_with_entry
  = (Ok (with_fromCache true saved_response),
     set_calls world_with_entry
       [RedisGet (redisKey user1Id "How much did I spend on food?")]).
Proof.
  apply (cache_hit_skips_the_chain no_operator keep_fields no_stage
           translate_food answer_food parse_saved stringify_saved
           world_with_entry "How much did I spend on food?" user1Id
           "Rahul Sharma" saved_response);
    [vm_compute; reflexivity | reflexivity].
Defined.

Lemma repeated_question_is_a_hit_witness :
  exists w1,
    processQuery no_operator keep_fields no_stage translate_food answer_food
      parse_food stringify_saved "How much did I spend on food?" user1Id
      "Rahul Sharma" world_with_cache
    = (Ok (with_fromCache false food_response), w1)
    /\ processQuery no_operator keep_fields no_stage translate_food answer_food
         parse_food stringify_saved "how much did I spend  on FOOD?" user1Id
         "Rahul Sharma" w1
       = (Ok (with_fromCache true food_response),
          set_calls w1
            (RedisGet (redisKey user1Id "How much did I spend on food?")
             :: calls w1)).
Proof.
  apply (repeated_question_is_a_hit no_operator keep_fields no_stage
           translate_food answer_food parse_food stringify_saved
           world_with_cache "How much did I spend on food?"
           "how much did I spend  on FOOD?" user1Id "Rahul Sharma"
           food_response);
    [reflexivity | reflexivity | reflexivity | vm_compute; reflexivity
    | vm_compute; reflexivity | discriminate | reflexivity
    | vm_compute; reflexivity].
Defined.

Lemma valid_request_reaches_processQuery_witness :
  run_post_query
    (mkRequestBody (JStr " How much did I spend on food? ") (Some user1Id)
       (Some "Rahul Sharma")) world_with_entry
  = match processQuery no_operator keep_fields no_stage translate_food
            answer_food parse_nothing stringify_nothing
            "How much did I spend on food?" user1Id "Rahul Sharma"
            world_with_entry with
    | (Ok result, w') => (Ok (Reply 200 result), w')
    | (Throw _, w') =>
        (Ok (Reply 500 (JObj [("error", JStr "Query Processing Failed")])), w')
    end.
Proof.
  apply (valid_request_reaches_processQuery no_operator keep_fields no_stage
           translate_food answer_food parse_nothing stringify_nothing
           " How much did I spend on food? " user1Id "Rahul Sharma"
           world_with_entry).
  - discriminate.
  - vm_compute. lia.
  - discriminate.
  - discriminate.
Defined.

Lemma fenced_answer_parses_as_bare_witness :
  parseQueryResponse parse_saved
    (Message ("```json" ++ String line_feed ("saved" ++ String line_feed "```")))
  = parseQueryResponse parse_saved (Plain "saved").
Proof.
  destruct (fenced_answer_parses_as_bare parse_saved "saved" eq_refl)
    as [Hjson _].
  exact Hjson.
Defined.

Lemma reconnectStrategy_waits_linearly_witness :
  reconnectStrategy 10 = RetryAfter 1000
  /\ (1000 = 100 * 10 /\ 0 <= 1000 <= 1000)%Z.
Proof.
  split; [reflexivity|].
  destruct (reconnectStrategy_waits_linearly 10) as [_ Hwait]; [lia|].
  exact (Hwait 1000%Z eq_refl).
Defined.

Lemma out_of_contract_query_stops_the_chain_witness :
  exists e,
    processNaturalLanguageQuery no_operator keep_fields no_stage
      (fun _ _ => Ok drop_stocks) answer_food
      "Drop the stocks" user1Id "Rahul Sharma" world_with_cache
    = (Throw e,
       set_calls world_with_cache
         (LlmTranslate user1Id "Drop the stocks" :: calls world_with_cache))
    /\ (e = InvalidCollection (collection drop_stocks)
        \/ e = UnsupportedOperation (operation drop_stocks)
        \/ e = TypeError).
Proof.
  apply (out_of_contract_query_stops_the_chain no_operator keep_fields no_stage
           (fun _ _ => Ok drop_stocks) answer_food world_with_cache
           "Drop the stocks" user1Id "Rahul Sharma" drop_stocks);
    [reflexivity | left; reflexivity].
Defined.

End OnFixture.
